(** * RigArchitect: the compatibility and estimation engine

    A shallow embedding of [src/main.py] and [src/schemas.py]: the
    component catalogue and the build collection are an explicit store,
    handlers are computations in a state-and-exception monad over that
    store, and the rules of [compatibility_issues] are kept in the order
    and shape of the source. *)

From Stdlib Require Import ZArith List Ascii Lia Bool.
From Stdlib Require Import Floats.PrimFloat Floats.FloatOps.
From Stdlib Require Import Numbers.Cyclic.Int63.Uint63.
From stdpp Require Import base option list gmap strings pretty sorting.

Open Scope Z_scope.

(** ** Python values *)

(** Text is kept as its UTF-8 bytes: a [string] is an encoded [str].
    Equality, concatenation, emptiness and membership in a list of
    strings are the same on the bytes as on the code points. *)

(** [c.lower()] for an ASCII character: [A]-[Z] to [a]-[z]. *)
Definition lower_ascii (c : ascii) : ascii :=
  let n := nat_of_ascii c in
  if (Nat.leb 65 n && Nat.leb n 90)%bool then ascii_of_nat (n + 32) else c.

(** [s.lower()] for ASCII text. *)
Fixpoint lower_ascii_str (s : string) : string :=
  match s with
  | EmptyString => EmptyString
  | String c s' => String (lower_ascii c) (lower_ascii_str s')
  end.

(** [s.isascii()]: every byte is below 128. *)
Fixpoint isascii (s : string) : bool :=
  match s with
  | EmptyString => true
  | String c s' => (Nat.ltb (nat_of_ascii c) 128 && isascii s')%bool
  end.

(** [str.lower] is the interpreter's: the lower-case mapping of the
    Unicode character database, which is not part of the program.  The
    handlers take it as given; what is known of it here is that on ASCII
    text it is the mapping of [A]-[Z] to [a]-[z]. *)
Class Unicode := {
  (** [s.lower()] *)
  lower : string → string;
  lower_isascii : ∀ s, isascii s = true → lower s = lower_ascii_str s
}.

(** [str(n)] and the [{n}] of an f-string, for an [int]. *)
Definition str_int (n : Z) : string := pretty n.

(** [needle in haystack] for two strings, as a proposition. *)
Definition contains (haystack needle : string) : Prop :=
  ∃ before after, haystack = before +:+ needle +:+ after.

(** *** Floats: [int * 1.3] and [int(...)]

    A binary64 value is kept as [mant * 2^expo] with a significand of at
    most 53 bits; rounding is to nearest, ties to even.  The exponent
    range is not bounded: Python raises [OverflowError] only beyond
    2^1024, a total no list of 64-bit BSON integers of any storable
    length reaches. *)
Record binary64 := Binary64 { mant : Z; expo : Z }.

(** Nearest integer to [n / 2^s] for [0 <= n], [0 <= s], ties to even. *)
Definition round_half_even (n s : Z) : Z :=
  let q := Z.shiftr n s in
  let r := n - Z.shiftl q s in
  match Z.compare (2 * r) (Z.shiftl 1 s) with
  | Lt => q
  | Gt => q + 1
  | Eq => if Z.even q then q else q + 1
  end.

(** Number of low bits a magnitude loses to fit 53 bits. *)
Definition excess_bits (n : Z) : Z := Z.max 0 (Z.log2 n + 1 - 53).

(** The double nearest to [n * 2^e]. *)
Definition round_binary64 (n e : Z) : binary64 :=
  let s := excess_bits (Z.abs n) in
  Binary64 (Z.sgn n * round_half_even (Z.abs n) s) (e + s).

(** [float(n)] for an [int]. *)
Definition float_of_int (n : Z) : binary64 := round_binary64 n 0.

(** [x * y] on floats. *)
Definition float_mul (x y : binary64) : binary64 :=
  round_binary64 (mant x * mant y) (expo x + expo y).

(** [int(x)]: truncation towards zero. *)
Definition int_of_float (x : binary64) : Z :=
  if 0 <=? expo x then mant x * 2 ^ expo x
  else Z.quot (mant x) (2 ^ (- expo x)).

(** The literal [1.3] is the double 0x1.4cccccccccccdp+0. *)
Definition float_1_3 : binary64 := Binary64 5854679515581645 (-52).

(** [int(n * 1.3)]. *)
Definition int_mul_1_3 (n : Z) : Z :=
  int_of_float (float_mul (float_of_int n) float_1_3).

(** The hardware product, read back through the kernel's primitive
    floats, for comparison with [int_mul_1_3] on small totals. *)
Definition prim_int_mul_1_3 (n : Z) : option Z :=
  match Prim2SF (PrimFloat.mul (PrimFloat.of_uint63 (Uint63.of_Z n)) 0x1.4cccccccccccdp+0%float) with
  | SpecFloat.S754_zero _ => Some 0
  | SpecFloat.S754_finite false m e =>
      Some (if 0 <=? e then Z.pos m * 2 ^ e else Z.pos m / 2 ^ (- e))
  | _ => None
  end.

(** Prices are Python floats: the kernel's binary64. *)
Definition price_zero : float := 0%float.

(** [bool(x)] for a float: [x != 0.0]. *)
Definition truthy_float (x : float) : bool := negb (PrimFloat.eqb x 0%float).

(** ** Schemas ([src/schemas.py]) *)

(** The fields of a catalogue entry that the handlers read. *)
Record Component := mkComponent {
  name : string;
  type : string;
  socket : option string;
  tdp : option Z;
  ram_type : option string;
  gpu_length_mm : option Z;
  max_gpu_length_mm : option Z;
  psu_wattage : option Z;
  psu_form_factor : option string;
  case_supported_psu : option (list string);
  case_motherboard_support : option (list string);
  motherboard_form_factor : option string;
  cooler_height_mm : option Z;
  case_max_cooler_height_mm : option Z;
  price : option float
}.

Record BuildComponent := mkBuildComponent {
  component_id : string;
  bc_type : string
}.

Record Build := mkBuild {
  title : string;
  description : option string;
  creator_id : option string;
  is_anchor : bool;
  components : list BuildComponent;
  total_price : option float;
  likes : Z
}.

(** The same build under another client-supplied [total_price]. *)
Definition with_total_price (p : option float) (build : Build) : Build :=
  mkBuild (title build) (description build) (creator_id build)
          (is_anchor build) (components build) p (likes build).

(** The same build over another list of references. *)
Definition with_components (refs : list BuildComponent) (build : Build) : Build :=
  mkBuild (title build) (description build) (creator_id build)
          (is_anchor build) refs (total_price build) (likes build).

(** ** Exceptions *)

Inductive detail :=
  | Message (s : string)
  | Errors (problems : list string).

Inductive exn :=
  | HTTPException (status_code : Z) (d : detail).

(** ** The record keys of the store ([bson.ObjectId]) *)

Class Bson (ObjectId : Type) := {
  ObjectId_eq_dec :: EqDecision ObjectId;
  ObjectId_countable :: Countable ObjectId;
  (** [ObjectId(s)]: the key, or nothing where the constructor raises *)
  ObjectId_of_str : string → option ObjectId;
  (** [str(k)] *)
  str_of_ObjectId : ObjectId → string
}.

Section Handlers.
Context {ObjectId : Type} `{!Bson ObjectId} {unicode : Unicode}.

(** ** The store

    [db["component"]] by key, [db["build"]] in insertion order, and the
    keys of the [find_one] calls made on the catalogue so far. *)
Record Db := mkDb {
  db_component : gmap ObjectId Component;
  db_build : list (ObjectId * Build);
  db_queries : list ObjectId
}.

(** A handler runs on the store and leaves a store behind, also when it
    raises. *)
Definition M (A : Type) : Type := Db → (exn + A) * Db.

Definition ret {A} (a : A) : M A := λ s, (inr a, s).

Definition raise {A} (e : exn) : M A := λ s, (inl e, s).

Definition bind {A B} (m : M A) (k : A → M B) : M B :=
  λ s, match m s with
       | (inr a, s') => k a s'
       | (inl e, s') => (inl e, s')
       end.

#[local] Notation "'let*' x := m 'in' k" := (bind m (λ x, k))
  (at level 10, x name, m at level 100, k at level 200).

(** [for x in l: acc = body(acc, x)] *)
Fixpoint for_each {A B} (body : B → A → M B) (acc : B) (l : list A) : M B :=
  match l with
  | [] => ret acc
  | x :: l' => let* acc' := body acc x in for_each body acc' l'
  end.

Definition find_one (k : ObjectId) : M (option Component) :=
  λ s, (inr (db_component s !! k),
        mkDb (db_component s) (db_build s) (db_queries s ++ [k])).

(** [db["build"].insert_one(doc)]; [new_id] is the key the driver mints. *)
Definition insert_one (new_id : ObjectId) (doc : Build) : M ObjectId :=
  λ s, (inr new_id,
        mkDb (db_component s) (db_build s ++ [(new_id, doc)]) (db_queries s)).

Definition oid (id_str : string) : M ObjectId :=
  match ObjectId_of_str id_str with
  | Some k => ret k
  | None => raise (HTTPException 400 (Message "Invalid id"))
  end.

(** ** Truthiness of [doc and doc.get(field)]

    The value of the field when the document was found and the value is
    truthy: a non-empty string, a non-zero integer, a non-empty list. *)
Definition truthy_str (doc : option Component) (field : Component → option string)
  : option string :=
  match doc with
  | Some c => match field c with
              | Some v => if String.eqb v "" then None else Some v
              | None => None
              end
  | None => None
  end.

Definition truthy_int (doc : option Component) (field : Component → option Z)
  : option Z :=
  match doc with
  | Some c => match field c with
              | Some v => if v =? 0 then None else Some v
              | None => None
              end
  | None => None
  end.

Definition truthy_list (doc : option Component)
  (field : Component → option (list string)) : option (list string) :=
  match doc with
  | Some c => match field c with
              | Some [] => None
              | Some v => Some v
              | None => None
              end
  | None => None
  end.

(** [x in l] for a list of strings. *)
Definition str_in (x : string) (l : list string) : bool :=
  existsb (String.eqb x) l.

(** ** Wattage *)

Definition estimate_wattage (build : Build) : M Z :=
  let* total_tdp := for_each (λ total_tdp bc,
      let* k := oid (component_id bc) in
      let* comp := find_one k in
      ret (match truthy_int comp tdp with
           | Some t => total_tdp + t
           | None => total_tdp
           end)) 0 (components build) in
  ret (if total_tdp =? 0 then 0 else int_mul_1_3 total_tdp).

(** ** Compatibility *)

(** [comps.get(role)] on the dict of the comprehension, whose values are
    documents or [None]. *)
Definition comps_get (comps : gmap string (option Component)) (role : string)
  : option Component :=
  match comps !! role with
  | Some doc => doc
  | None => None
  end.

Definition compatibility_issues (build : Build) : M (list string) :=
  let* comps := for_each (λ comps bc,
      let* k := oid (component_id bc) in
      let* doc := find_one k in
      ret (<[bc_type bc := doc]> comps)) (∅ : gmap string (option Component))
    (components build) in
  let issues : list string := [] in
  let cpu := comps_get comps "cpu" in
  let mobo := comps_get comps "motherboard" in
  let ram := comps_get comps "ram" in
  let gpu := comps_get comps "gpu" in
  let case := comps_get comps "case" in
  let psu := comps_get comps "psu" in
  let cooler := comps_get comps "cooler" in
  (* Socket match *)
  let issues :=
    match truthy_str cpu socket, truthy_str mobo socket with
    | Some c, Some m =>
        if negb (String.eqb (lower c) (lower m))
        then issues ++ ["CPU socket " +:+ c +:+ " not compatible with motherboard " +:+ m]
        else issues
    | _, _ => issues
    end in
  (* RAM type *)
  let issues :=
    match truthy_str ram ram_type, truthy_str mobo ram_type with
    | Some r, Some m =>
        if negb (String.eqb (lower r) (lower m))
        then issues ++ ["RAM type " +:+ r +:+ " not compatible with motherboard " +:+ m]
        else issues
    | _, _ => issues
    end in
  (* GPU length vs case *)
  let issues :=
    match truthy_int gpu gpu_length_mm, truthy_int case max_gpu_length_mm with
    | Some g, Some c =>
        if c <? g then issues ++ ["GPU length exceeds case maximum"] else issues
    | _, _ => issues
    end in
  (* Cooler height vs case *)
  let issues :=
    match truthy_int cooler cooler_height_mm,
          truthy_int case case_max_cooler_height_mm with
    | Some h, Some c =>
        if c <? h then issues ++ ["Cooler height exceeds case maximum"] else issues
    | _, _ => issues
    end in
  (* PSU wattage *)
  let* est_watts := estimate_wattage build in
  let issues :=
    match truthy_int psu psu_wattage with
    | Some w =>
        if negb (est_watts =? 0) then
          if w <? est_watts
          then issues ++ ["PSU wattage too low. Estimated " +:+ str_int est_watts
                          +:+ "W, PSU is " +:+ str_int w +:+ "W"]
          else issues
        else issues
    | None => issues
    end in
  (* PSU form factor vs case *)
  let issues :=
    match truthy_str psu psu_form_factor, truthy_list case case_supported_psu with
    | Some f, Some l =>
        if negb (str_in f l)
        then issues ++ ["PSU form factor not supported by case"] else issues
    | _, _ => issues
    end in
  (* Motherboard form factor vs case support *)
  let issues :=
    match truthy_str mobo motherboard_form_factor,
          truthy_list case case_motherboard_support with
    | Some f, Some l =>
        if negb (str_in f l)
        then issues ++ ["Motherboard form factor not supported by case"] else issues
    | _, _ => issues
    end in
  ret issues.

(** ** Builds *)

(** The body of the response of [create_build]. *)
Record Created := mkCreated {
  created_id : string;
  created_total_price : float
}.

Definition create_build (new_id : ObjectId) (build : Build) : M Created :=
  (* compute total price *)
  let* total := for_each (λ total bc,
      let* k := oid (component_id bc) in
      let* doc := find_one k in
      match doc with
      | None => raise (HTTPException 404
                  (Message ("Component not found: " +:+ component_id bc)))
      | Some d =>
          ret (match price d with
               | Some p => if truthy_float p then PrimFloat.add total p else total
               | None => total
               end)
      end) price_zero (components build) in
  let bdict := mkBuild (title build) (description build) (creator_id build)
                       (is_anchor build) (components build) (Some total)
                       (likes build) in
  (* compatibility checks *)
  let* problems := compatibility_issues build in
  match problems with
  | _ :: _ => raise (HTTPException 400 (Errors problems))
  | [] =>
      let* inserted_id := insert_one new_id bdict in
      ret (mkCreated (str_of_ObjectId inserted_id) total)
  end.

(** [validate_build]: the issues and the estimate. *)
Definition validate_build (build : Build) : M (list string * Z) :=
  let* issues := compatibility_issues build in
  let* watts := estimate_wattage build in
  ret (issues, watts).

End Handlers.

Notation "'let*' x := m 'in' k" := (bind m (λ x, k))
  (at level 10, x name, m at level 100, k at level 200, only parsing).

(** ** What the handlers are specified against *)

Section Specification.
Context {ObjectId : Type} `{!Bson ObjectId} {unicode : Unicode}.

Definition eval {A} (m : M A) (s : Db) : exn + A := fst (m s).

Definition exec {A} (m : M A) (s : Db) : Db := snd (m s).

(** The store after [find_one] calls on [ks], in that order. *)
Definition logged (s : Db) (ks : list ObjectId) : Db :=
  mkDb (db_component s) (db_build s) (db_queries s ++ ks).

Definition invalid_id : exn := HTTPException 400 (Message "Invalid id").

Definition not_found (id_str : string) : exn :=
  HTTPException 404 (Message ("Component not found: " +:+ id_str)).

(** A reference is well formed when its identifier is a record key. *)
Definition well_formed_ref (bc : BuildComponent) : Prop :=
  is_Some (ObjectId_of_str (component_id bc)).

Definition well_formed (build : Build) : Prop :=
  Forall well_formed_ref (components build).

(** The catalogue entry a reference resolves to. *)
Definition lookup_ref (s : Db) (bc : BuildComponent) : option Component :=
  match ObjectId_of_str (component_id bc) with
  | Some k => db_component s !! k
  | None => None
  end.

(** The keys of the references up to the first malformed one. *)
Fixpoint parsed_prefix (l : list BuildComponent) : list ObjectId :=
  match l with
  | [] => []
  | bc :: l' =>
      match ObjectId_of_str (component_id bc) with
      | Some k => k :: parsed_prefix l'
      | None => []
      end
  end.

(** The resolved component set: one entry per reference that resolves,
    in the order of the build, repeated references repeated. *)
Definition resolved (s : Db) (build : Build) : list Component :=
  omap (lookup_ref s) (components build).

Definition declared_tdps (cs : list Component) : list Z := omap tdp cs.

Definition sum_Z (l : list Z) : Z := foldr Z.add 0 l.

Definition tdp_total (cs : list Component) : Z := sum_Z (declared_tdps cs).

(** The role-to-component mapping: the last reference of a role decides. *)
Definition role_lookup (s : Db) (build : Build) (role : string)
  : option Component :=
  match last (filter (λ bc, bc_type bc = role) (components build)) with
  | Some bc => lookup_ref s bc
  | None => None
  end.

(** The components the checker can see: one per role of the source. *)
Definition checker_view (s : Db) (build : Build) : list Component :=
  omap (role_lookup s build)
       ["cpu"; "motherboard"; "ram"; "gpu"; "case"; "psu"; "cooler"].

(** *** The rule table: seven independent units over the role mapping *)

Definition Roles : Type := string → option Component.

Definition socket_message (c m : string) : string :=
  "CPU socket " +:+ c +:+ " not compatible with motherboard " +:+ m.

Definition ram_message (r m : string) : string :=
  "RAM type " +:+ r +:+ " not compatible with motherboard " +:+ m.

Definition gpu_message : string := "GPU length exceeds case maximum".

Definition cooler_message : string := "Cooler height exceeds case maximum".

Definition psu_message (est_watts w : Z) : string :=
  "PSU wattage too low. Estimated " +:+ str_int est_watts
  +:+ "W, PSU is " +:+ str_int w +:+ "W".

Definition psu_form_message : string := "PSU form factor not supported by case".

Definition mobo_form_message : string :=
  "Motherboard form factor not supported by case".

Definition socket_rule (roles : Roles) (est_watts : Z) : list string :=
  match truthy_str (roles "cpu") socket, truthy_str (roles "motherboard") socket with
  | Some c, Some m =>
      if negb (String.eqb (lower c) (lower m)) then [socket_message c m] else []
  | _, _ => []
  end.

Definition ram_rule (roles : Roles) (est_watts : Z) : list string :=
  match truthy_str (roles "ram") ram_type, truthy_str (roles "motherboard") ram_type with
  | Some r, Some m =>
      if negb (String.eqb (lower r) (lower m)) then [ram_message r m] else []
  | _, _ => []
  end.

Definition gpu_rule (roles : Roles) (est_watts : Z) : list string :=
  match truthy_int (roles "gpu") gpu_length_mm,
        truthy_int (roles "case") max_gpu_length_mm with
  | Some g, Some c => if c <? g then [gpu_message] else []
  | _, _ => []
  end.

Definition cooler_rule (roles : Roles) (est_watts : Z) : list string :=
  match truthy_int (roles "cooler") cooler_height_mm,
        truthy_int (roles "case") case_max_cooler_height_mm with
  | Some h, Some c => if c <? h then [cooler_message] else []
  | _, _ => []
  end.

Definition psu_rule (roles : Roles) (est_watts : Z) : list string :=
  match truthy_int (roles "psu") psu_wattage with
  | Some w =>
      if negb (est_watts =? 0) && (w <? est_watts)
      then [psu_message est_watts w] else []
  | None => []
  end.

Definition psu_form_rule (roles : Roles) (est_watts : Z) : list string :=
  match truthy_str (roles "psu") psu_form_factor,
        truthy_list (roles "case") case_supported_psu with
  | Some f, Some l => if negb (str_in f l) then [psu_form_message] else []
  | _, _ => []
  end.

Definition mobo_form_rule (roles : Roles) (est_watts : Z) : list string :=
  match truthy_str (roles "motherboard") motherboard_form_factor,
        truthy_list (roles "case") case_motherboard_support with
  | Some f, Some l => if negb (str_in f l) then [mobo_form_message] else []
  | _, _ => []
  end.

Definition rules : list (Roles → Z → list string) :=
  [socket_rule; ram_rule; gpu_rule; cooler_rule; psu_rule; psu_form_rule;
   mobo_form_rule].

(** The roles each rule reads, in the order of [rules]. *)
Definition rule_roles : list (list string) :=
  [["cpu"; "motherboard"]; ["ram"; "motherboard"]; ["gpu"; "case"];
   ["cooler"; "case"]; ["psu"]; ["psu"; "case"]; ["motherboard"; "case"]].

Definition rule_table (roles : Roles) (est_watts : Z) : list string :=
  concat (map (λ rule, rule roles est_watts) rules).

(** The text of a catalogue entry that the checker lower-cases is
    ASCII. *)
Definition plain_ascii (d : Component) : bool :=
  (from_option isascii true (socket d)
   && from_option isascii true (ram_type d))%bool.

Definition ascii_catalogue (s : Db) : Prop :=
  map_Forall (λ _ d, plain_ascii d = true) (db_component s).

(** The estimate as the specification words it: nothing for a zero
    total, otherwise 1.3 times the total, truncated. *)
Definition headroom (total : Z) : Z :=
  if total =? 0 then 0 else int_mul_1_3 total.

(** Messages of one rule within a violation list. *)
Definition socket_messages (issues : list string) : list string :=
  filter (λ msg, String.prefix "CPU socket " msg = true) issues.

Definition gpu_messages (issues : list string) : list string :=
  filter (λ msg, msg = gpu_message) issues.

Definition psu_messages (issues : list string) : list string :=
  filter (λ msg, String.prefix "PSU wattage too low" msg = true) issues.

(** The price a catalogue entry adds to a build: its declared price,
    nothing when there is none (or a zero). *)
Definition billed_price (c : Component) : option float :=
  match price c with
  | Some p => if truthy_float p then Some p else None
  | None => None
  end.

(** The float sum, left to right from [0.0]. *)
Definition price_sum (cs : list Component) : float :=
  foldl PrimFloat.add price_zero (omap billed_price cs).

(** The first reference that does not resolve, and what strict
    resolution raises for it. *)
Definition first_unresolved (s : Db) (l : list BuildComponent)
  : option (nat * BuildComponent) :=
  list_find (λ bc, lookup_ref s bc = None) l.

Definition strict_error (bc : BuildComponent) : exn :=
  match ObjectId_of_str (component_id bc) with
  | Some _ => not_found (component_id bc)
  | None => invalid_id
  end.

(** The document [create_build] stores for a build. *)
Definition stored_document (build : Build) (total : float) : Build :=
  mkBuild (title build) (description build) (creator_id build)
          (is_anchor build) (components build) (Some total) (likes build).

End Specification.

(** ** The other handlers of [src/main.py] *)

(** [schemas.Like] *)
Record Like := mkLike {
  build_id : string;
  user_id : string
}.

Section Collections.
Context {ObjectId : Type} `{!Bson ObjectId} {unicode : Unicode}.

(** [db["build"].find_one({"_id": k})]: the first document under the
    key. *)
Fixpoint lookup_build (k : ObjectId) (l : list (ObjectId * Build))
  : option Build :=
  match l with
  | [] => None
  | (k', doc) :: l' => if decide (k' = k) then Some doc else lookup_build k l'
  end.

Definition find_build (k : ObjectId) : M (option Build) :=
  λ s, (inr (lookup_build k (db_build s)), s).

(** [update_one({"_id": k}, change)] on a list of documents: the first
    document under the key is changed; nothing when there is none. *)
Fixpoint update_first (k : ObjectId) (change : Build → Build)
  (l : list (ObjectId * Build)) : option (list (ObjectId * Build)) :=
  match l with
  | [] => None
  | (k', doc) :: l' =>
      if decide (k' = k) then Some ((k', change doc) :: l')
      else cons (k', doc) <$> update_first k change l'
  end.

(** [db["build"].update_one(...)]; the result is [matched_count]. *)
Definition update_one (k : ObjectId) (change : Build → Build) : M Z :=
  λ s, match update_first k change (db_build s) with
       | Some l' => (inr 1, mkDb (db_component s) l' (db_queries s))
       | None => (inr 0, s)
       end.

(** [{"$set": update}] for the three fields [update_build] may name. *)
Definition set_fields (is_anchor' : option bool) (title' description' : option string)
  (doc : Build) : Build :=
  mkBuild (default (title doc) title')
          (match description' with
           | Some d => Some d
           | None => description doc
           end)
          (creator_id doc)
          (default (is_anchor doc) is_anchor')
          (components doc) (total_price doc) (likes doc).

Definition update_build (build_id : string) (is_anchor' : option bool)
  (title' description' : option string) : M bool :=
  match is_anchor', title', description' with
  | None, None, None =>
      raise (HTTPException 400 (Message "No fields to update"))
  | _, _, _ =>
      let* k := oid build_id in
      let* matched_count := update_one k (set_fields is_anchor' title' description') in
      if matched_count =? 0
      then raise (HTTPException 404 (Message "Build not found"))
      else ret true
  end.

(** One entry of [components_expanded]: the reference, and the
    catalogue entry under its [id]. *)
Record Expanded := mkExpanded {
  expanded_ref : BuildComponent;
  expanded_id : string;
  expanded_component : Component
}.

(** What [get_build] returns: the stored document under its [id], the
    expanded components and the comments. *)
Record BuildView {CommentDoc : Type} := mkBuildView {
  view_id : string;
  view_doc : Build;
  components_expanded : list Expanded;
  comments : list CommentDoc
}.
Arguments BuildView : clear implicits.
Arguments mkBuildView {CommentDoc}.

(** [comments_of build_id] is what the query on [db["comment"]] for the
    comments of [build_id], newest first, returns; that collection is
    written by [database.create_document] only. *)
Definition get_build {CommentDoc : Type} (comments_of : string → list CommentDoc)
  (build_id : string) : M (BuildView CommentDoc) :=
  let* k := oid build_id in
  let* doc := find_build k in
  match doc with
  | None => raise (HTTPException 404 (Message "Build not found"))
  | Some doc =>
      (* expand components *)
      let* expanded := for_each (λ expanded bc,
          let* ck := oid (component_id bc) in
          let* c := find_one ck in
          ret (match c with
               | Some c => expanded ++ [mkExpanded bc (str_of_ObjectId ck) c]
               | None => expanded
               end)) [] (components doc) in
      (* comments *)
      ret (mkBuildView (str_of_ObjectId k) doc expanded (comments_of build_id))
  end.

(** *** Likes *)

(** The store with [db["like"]]. *)
Record Site := mkSite {
  site_db : Db;
  db_like : list Like
}.

(** [{"$inc": {"likes": 1}}] *)
Definition inc_likes (doc : Build) : Build :=
  mkBuild (title doc) (description doc) (creator_id doc) (is_anchor doc)
          (components doc) (total_price doc) (likes doc + 1).

(** [db["like"].find_one({"build_id": b, "user_id": u})], as a test. *)
Definition liked (b u : string) (likes_ : list Like) : bool :=
  existsb (λ lk, String.eqb (build_id lk) b && String.eqb (user_id lk) u) likes_.

Definition like_build (build_id user_id : string)
  : Site → (exn + string) * Site :=
  λ t,
    if liked build_id user_id (db_like t)
    then (inl (HTTPException 400 (Message "Already liked")), t)
    else
      let likes_ := db_like t ++ [mkLike build_id user_id] in
      match (let* k := oid build_id in update_one k inc_likes) (site_db t) with
      | (inr _, s') => (inr "ok", mkSite s' likes_)
      | (inl e, s') => (inl e, mkSite s' likes_)
      end.

(** *** Listings *)

(** [cursor.limit(n)]: no limit for 0, the magnitude otherwise. *)
Definition cursor_limit {A} (n : Z) (l : list A) : list A :=
  if n =? 0 then l else take (Z.to_nat (Z.abs n)) l.

(** [it["id"] = str(it.pop("_id"))] over the documents found. *)
Definition with_ids (l : list (ObjectId * Build)) : list (string * Build) :=
  map (λ p, (str_of_ObjectId p.1, p.2)) l.

(** The order [sort("likes", ...)] asks for. *)
Definition likes_order (descending : bool) (x y : ObjectId * Build) : Prop :=
  if descending then likes y.2 ≤ likes x.2 else likes x.2 ≤ likes y.2.

Section Sorted.
(** [sort_by_likes descending] is the server's [sort("likes", -1|1)];
    the order it gives to documents of equal likes is its own. *)
Variable sort_by_likes :
  bool → list (ObjectId * Build) → list (ObjectId * Build).

Definition list_builds (top_loved : bool) (limit : Z)
  : M (list (string * Build)) :=
  λ s, (inr (with_ids (cursor_limit (if top_loved then 3 else limit)
                         (sort_by_likes top_loved (db_build s)))), s).

Definition list_anchor_builds : M (list (string * Build)) :=
  λ s, (inr (with_ids (sort_by_likes true
                         (filter (λ p, is_anchor p.2 = true) (db_build s)))), s).

End Sorted.

End Collections.

Arguments BuildView : clear implicits.
Arguments mkBuildView {CommentDoc}.
Arguments view_id {CommentDoc}.
Arguments view_doc {CommentDoc}.
Arguments components_expanded {CommentDoc}.
Arguments comments {CommentDoc}.

(** *** What the other handlers are specified against *)

Section Collections_specification.
Context {ObjectId : Type} `{!Bson ObjectId} {unicode : Unicode}.

(** The entry of [components_expanded] a reference gives, when it
    resolves. *)
Definition expand (s : Db) (bc : BuildComponent) : option Expanded :=
  match ObjectId_of_str (component_id bc) with
  | Some k => mkExpanded bc (str_of_ObjectId k) <$> db_component s !! k
  | None => None
  end.

(** Every stored build has identifiers that parse. *)
Definition stored_well_formed (s : Db) : Prop :=
  Forall (λ p, well_formed p.2) (db_build s).

(** What [update_build] and [like_build] leave alone in a build. *)
Definition build_core (p : ObjectId * Build)
  : ObjectId * option string * list BuildComponent * option float :=
  (p.1, creator_id p.2, components p.2, total_price p.2).

Definition already_liked : exn :=
  HTTPException 400 (Message "Already liked").

Definition no_fields_error : exn :=
  HTTPException 400 (Message "No fields to update").

Definition build_not_found : exn :=
  HTTPException 404 (Message "Build not found").

End Collections_specification.

(** ** A concrete store for the examples

    Keys written as 24 hexadecimal digits, kept in lower case. *)

Definition is_hex_digit (c : ascii) : bool :=
  let n := nat_of_ascii c in
  ((Nat.leb 48 n && Nat.leb n 57) || (Nat.leb 65 n && Nat.leb n 70)
   || (Nat.leb 97 n && Nat.leb n 102))%bool.

Fixpoint all_hex (s : string) : bool :=
  match s with
  | EmptyString => true
  | String c s' => (is_hex_digit c && all_hex s')%bool
  end.

Definition hex24_of_str (s : string) : option string :=
  if (Nat.eqb (String.length s) 24 && all_hex s)%bool
  then Some (lower_ascii_str s) else None.

(** The catalogue of the examples is ASCII text, where every [Unicode]
    agrees with this one. *)
#[export] Instance Ascii_text : Unicode := {|
  lower := lower_ascii_str;
  lower_isascii := λ _ _, eq_refl
|}.

#[export] Instance Hex24 : Bson string := {|
  ObjectId_of_str := hex24_of_str;
  str_of_ObjectId := λ k, k
|}.

Definition blank (nm ty : string) : Component :=
  mkComponent nm ty None None None None None None None None None None None None None.

Definition with_socket (v : string) (c : Component) : Component :=
  mkComponent (name c) (type c) (Some v) (tdp c) (ram_type c) (gpu_length_mm c)
    (max_gpu_length_mm c) (psu_wattage c) (psu_form_factor c) (case_supported_psu c)
    (case_motherboard_support c) (motherboard_form_factor c) (cooler_height_mm c)
    (case_max_cooler_height_mm c) (price c).

Definition with_tdp (v : Z) (c : Component) : Component :=
  mkComponent (name c) (type c) (socket c) (Some v) (ram_type c) (gpu_length_mm c)
    (max_gpu_length_mm c) (psu_wattage c) (psu_form_factor c) (case_supported_psu c)
    (case_motherboard_support c) (motherboard_form_factor c) (cooler_height_mm c)
    (case_max_cooler_height_mm c) (price c).

Definition with_gpu_length_mm (v : Z) (c : Component) : Component :=
  mkComponent (name c) (type c) (socket c) (tdp c) (ram_type c) (Some v)
    (max_gpu_length_mm c) (psu_wattage c) (psu_form_factor c) (case_supported_psu c)
    (case_motherboard_support c) (motherboard_form_factor c) (cooler_height_mm c)
    (case_max_cooler_height_mm c) (price c).

Definition with_max_gpu_length_mm (v : Z) (c : Component) : Component :=
  mkComponent (name c) (type c) (socket c) (tdp c) (ram_type c) (gpu_length_mm c)
    (Some v) (psu_wattage c) (psu_form_factor c) (case_supported_psu c)
    (case_motherboard_support c) (motherboard_form_factor c) (cooler_height_mm c)
    (case_max_cooler_height_mm c) (price c).

Definition with_psu_wattage (v : Z) (c : Component) : Component :=
  mkComponent (name c) (type c) (socket c) (tdp c) (ram_type c) (gpu_length_mm c)
    (max_gpu_length_mm c) (Some v) (psu_form_factor c) (case_supported_psu c)
    (case_motherboard_support c) (motherboard_form_factor c) (cooler_height_mm c)
    (case_max_cooler_height_mm c) (price c).

Definition with_price (v : float) (c : Component) : Component :=
  mkComponent (name c) (type c) (socket c) (tdp c) (ram_type c) (gpu_length_mm c)
    (max_gpu_length_mm c) (psu_wattage c) (psu_form_factor c) (case_supported_psu c)
    (case_motherboard_support c) (motherboard_form_factor c) (cooler_height_mm c)
    (case_max_cooler_height_mm c) (Some v).

Definition id_cpu : string := "64b000000000000000000001".
Definition id_cpu_hot : string := "64b000000000000000000002".
Definition id_cpu_unnamed_socket : string := "64b000000000000000000003".
Definition id_mobo_am5 : string := "64b000000000000000000004".
Definition id_mobo_lga : string := "64b000000000000000000005".
Definition id_gpu_350 : string := "64b000000000000000000006".
Definition id_gpu_300 : string := "64b000000000000000000007".
Definition id_case_320 : string := "64b000000000000000000008".
Definition id_case_0 : string := "64b000000000000000000009".
Definition id_psu_500 : string := "64b00000000000000000000a".
Definition id_psu_600 : string := "64b00000000000000000000b".
Definition id_psu_0 : string := "64b00000000000000000000c".
Definition id_psu_100 : string := "64b00000000000000000000d".
Definition id_missing : string := "64b0000000000000000000ff".
Definition id_missing' : string := "64b0000000000000000000fe".
Definition id_malformed : string := "not-a-key".
Definition id_fresh : string := "64b000000000000000000100".

Definition cpu_am5 : Component :=
  with_price 299.5%float (with_tdp 100 (with_socket "AM5" (blank "Ryzen" "cpu"))).
Definition cpu_hot : Component :=
  with_price 450%float (with_tdp 300 (with_socket "AM5" (blank "Threadripper" "cpu"))).
Definition cpu_unnamed_socket : Component :=
  with_tdp 100 (with_socket "" (blank "Sample" "cpu")).
Definition mobo_am5 : Component :=
  with_price 180.25%float (with_socket "am5" (blank "B650" "motherboard")).
Definition mobo_lga : Component :=
  with_socket "LGA1700" (blank "Z790" "motherboard").
Definition gpu_350 : Component :=
  with_price 0%float (with_tdp 300 (with_gpu_length_mm 350 (blank "Big" "gpu"))).
Definition gpu_300 : Component :=
  with_tdp 150 (with_gpu_length_mm 300 (blank "Small" "gpu")).
Definition case_320 : Component :=
  with_max_gpu_length_mm 320 (blank "Tower" "case").
Definition case_0 : Component :=
  with_max_gpu_length_mm 0 (blank "Shoebox" "case").
Definition psu_500 : Component := with_psu_wattage 500 (blank "P500" "psu").
Definition psu_600 : Component := with_psu_wattage 600 (blank "P600" "psu").
Definition psu_0 : Component := with_psu_wattage 0 (blank "P0" "psu").
Definition psu_100 : Component := with_psu_wattage 100 (blank "P100" "psu").

Definition catalogue : gmap string Component :=
  list_to_map
    [(id_cpu, cpu_am5); (id_cpu_hot, cpu_hot);
     (id_cpu_unnamed_socket, cpu_unnamed_socket);
     (id_mobo_am5, mobo_am5); (id_mobo_lga, mobo_lga);
     (id_gpu_350, gpu_350); (id_gpu_300, gpu_300);
     (id_case_320, case_320); (id_case_0, case_0);
     (id_psu_500, psu_500); (id_psu_600, psu_600); (id_psu_0, psu_0);
     (id_psu_100, psu_100)].

Definition store : Db := mkDb catalogue [] [].

Definition ref (id_str role : string) : BuildComponent :=
  mkBuildComponent id_str role.

(** A build as a client posts it, defaults filled in by the schema. *)
Definition draft (refs : list BuildComponent) : Build :=
  mkBuild "Draft" None None false refs None 0.


(** * Properties *)

Definition build_tdp_100_150 : Build :=
  draft [ref id_cpu "cpu"; ref id_gpu_300 "gpu"].

Definition build_socket_and_psu : Build :=
  draft [ref id_cpu "cpu"; ref id_gpu_350 "gpu"; ref id_mobo_lga "motherboard";
         ref id_psu_500 "psu"; ref id_case_320 "case"].

Definition build_socket_and_psu_0 : Build :=
  draft [ref id_cpu "cpu"; ref id_gpu_350 "gpu"; ref id_mobo_lga "motherboard";
         ref id_psu_0 "psu"].

Definition build_same_socket : Build :=
  draft [ref id_cpu "cpu"; ref id_mobo_am5 "motherboard"].

Definition build_socket_mismatch : Build :=
  draft [ref id_cpu "cpu"; ref id_mobo_lga "motherboard"].

Definition build_empty_socket : Build :=
  draft [ref id_cpu_unnamed_socket "cpu"; ref id_mobo_lga "motherboard"].

Definition build_gpu_350 : Build :=
  draft [ref id_gpu_350 "gpu"; ref id_case_320 "case"].

Definition build_gpu_300 : Build :=
  draft [ref id_gpu_300 "gpu"; ref id_case_320 "case"].

Definition build_zero_clearance : Build :=
  draft [ref id_gpu_300 "gpu"; ref id_case_0 "case"].

Definition build_psu_500 : Build :=
  draft [ref id_cpu "cpu"; ref id_gpu_350 "gpu"; ref id_psu_500 "psu"].

Definition build_psu_600 : Build :=
  draft [ref id_cpu "cpu"; ref id_gpu_350 "gpu"; ref id_psu_600 "psu"].

Definition build_psu_0 : Build :=
  draft [ref id_cpu "cpu"; ref id_gpu_350 "gpu"; ref id_psu_0 "psu"].

Definition build_missing_gpu : Build :=
  draft [ref id_cpu "cpu"; ref id_missing "gpu"; ref id_case_320 "case"].

Definition build_malformed_then_missing : Build :=
  draft [ref id_malformed "cpu"; ref id_missing "gpu"].

Definition build_missing_then_found : Build :=
  draft [ref id_missing "cpu"; ref id_cpu "cpu"; ref id_mobo_lga "motherboard"].

Definition build_missing_then_malformed : Build :=
  draft [ref id_missing "cpu"; ref id_malformed "gpu"].

Definition build_malformed_gpu : Build :=
  draft [ref id_cpu "cpu"; ref id_malformed "gpu"; ref id_case_320 "case"].

Definition build_priced : Build :=
  draft [ref id_cpu "cpu"; ref id_gpu_350 "gpu"; ref id_mobo_am5 "motherboard";
         ref id_psu_600 "psu"].

Definition build_two_cpus : Build :=
  draft [ref id_cpu_hot "cpu"; ref id_cpu "cpu"; ref id_psu_500 "psu"].

Definition build_one_cpu : Build :=
  draft [ref id_cpu "cpu"; ref id_psu_500 "psu"].

Definition build_showcase : Build :=
  mkBuild "Showcase" None None true [ref id_cpu "cpu"] (Some 1%float) 4200.

Definition id_build_a : string := "64c000000000000000000001".
Definition id_build_b : string := "64c000000000000000000002".
Definition id_build_c : string := "64c000000000000000000003".
Definition id_build_d : string := "64c000000000000000000004".
Definition id_build_a_upper : string := "64C000000000000000000001".

Definition stored (nm : string) (anchor : bool) (refs : list BuildComponent)
  (n : Z) : Build :=
  mkBuild nm None (Some "u1") anchor refs (Some 0%float) n.

Definition build_a : Build := stored "A" false [ref id_cpu "cpu"] 5.
Definition build_b : Build := stored "B" true [ref id_gpu_300 "gpu"] 9.
Definition build_c : Build := stored "C" false [] 1.
Definition build_d : Build := stored "D" true [ref id_missing "gpu"; ref id_cpu "cpu"] 7.

Definition gallery : Db :=
  mkDb catalogue
       [(id_build_a, build_a); (id_build_b, build_b); (id_build_c, build_c);
        (id_build_d, build_d)] [].

Definition site : Site := mkSite gallery [].

(** No comment has been posted. *)
Definition no_comments (build_id : string) : list string := [].

#[export] Instance likes_order_dec {ObjectId : Type} descending
  (x y : ObjectId * Build) : Decision (likes_order descending x y).
Proof. unfold likes_order. destruct descending; apply _. Defined.

(** A server that sorts by merging. *)
Definition merge_sort_by_likes (descending : bool)
  (l : list (string * Build)) : list (string * Build) :=
  merge_sort (likes_order descending) l.

(** ** The headroom product against exact arithmetic *)

Lemma round_half_even_0 n : round_half_even n 0 = n.
Proof.
  unfold round_half_even. rewrite Z.shiftr_0_r, Z.shiftl_0_r.
  replace (2 * (n - n)) with 0 by lia. reflexivity.
Qed.

(** Rounding moves up by at most one, and only from the upper half. *)
Lemma round_half_even_cases n s :
  0 ≤ s →
  let P := 2 ^ s in
  (round_half_even n s = n / P)
  ∨ (round_half_even n s = n / P + 1 ∧ P ≤ 2 * (n mod P)).
Proof.
  intros Hs P. unfold round_half_even.
  rewrite Z.shiftr_div_pow2, !Z.shiftl_mul_pow2 by done.
  fold P. assert (HP : 0 < P) by (apply Z.pow_pos_nonneg; lia).
  assert (Hr : n - n / P * P = n mod P) by (rewrite Z.mod_eq; lia).
  rewrite Hr.
  destruct (Z.compare_spec (2 * (n mod P)) (1 * P)); [|by left|right; lia].
  destruct (Z.even (n / P)); [by left | right; lia].
Qed.

Lemma excess_bits_small n : 0 ≤ n < 2 ^ 53 → excess_bits n = 0.
Proof.
  intros [Hn Hlt]. unfold excess_bits.
  destruct (decide (n = 0)) as [->|]; [done|].
  assert (Z.log2 n < 53) by (apply Z.log2_lt_pow2; lia). lia.
Qed.

Lemma float_of_int_small n : Z.abs n < 2 ^ 53 → float_of_int n = Binary64 n 0.
Proof.
  intros Hn. unfold float_of_int, round_binary64.
  rewrite excess_bits_small, round_half_even_0 by lia.
  f_equal; lia.
Qed.

(** On a positive total below 2^48 the rounded product truncates to
    the exact quotient. *)
Lemma headroom_magnitude a :
  0 < a < 2 ^ 48 →
  let N := a * 5854679515581645 in
  let s := excess_bits N in
  0 ≤ s ≤ 48 ∧ round_half_even N s / 2 ^ (52 - s) = 13 * a / 10.
Proof.
  intros [Ha Hlt] N s.
  assert (HN : 0 < N) by (unfold N; lia).
  assert (Hs : 0 ≤ s ≤ 48).
  { unfold s, excess_bits.
    assert (Z.log2 N < 101) by (apply Z.log2_lt_pow2; unfold N; lia). lia. }
  split; [done|].
  set (P := 2 ^ s). set (Q := 2 ^ (52 - s)).
  assert (HP : 0 < P) by (apply Z.pow_pos_nonneg; lia).
  assert (HQ : 0 < Q) by (apply Z.pow_pos_nonneg; lia).
  assert (HPQ : P * Q = 4503599627370496).
  { unfold P, Q. rewrite <- Z.pow_add_r by lia.
    replace (s + (52 - s)) with 52 by lia. reflexivity. }
  assert (HP48 : P ≤ 281474976710656).
  { unfold P. change 281474976710656 with (2 ^ 48).
    apply Z.pow_le_mono_r; lia. }
  pose proof (Z.div_mod (13 * a) 10 ltac:(lia)) as Hk.
  pose proof (Z.mod_pos_bound (13 * a) 10 ltac:(lia)) as Ht.
  set (k := 13 * a / 10) in *. set (t := (13 * a) mod 10) in *.
  pose proof (Z.div_mod N P ltac:(lia)) as Hq.
  pose proof (Z.mod_pos_bound N P HP) as Hr.
  set (q0 := N / P) in *. set (r := N mod P) in *.
  assert (HN10 : 10 * N = (10 * k + t) * 4503599627370496 + 2 * a).
  { unfold N. lia. }
  assert (Hlow : k * Q ≤ q0).
  { assert (P * (k * Q) < P * (q0 + 1)) by nia. nia. }
  assert (Hmid : q0 < (k + 1) * Q).
  { assert (P * q0 < P * ((k + 1) * Q)) by nia. nia. }
  change (2 ^ 48) with 281474976710656 in Hlt.
  pose proof (round_half_even_cases N s ltac:(lia)) as Hc.
  cbv zeta in Hc. fold P in Hc. fold q0 r in Hc. fold Q.
  destruct Hc as [Hm|[Hm Hhalf]]; rewrite Hm.
  - symmetry. apply Z.div_unique with (r := q0 - k * Q); lia.
  - assert (Hup : q0 + 1 < (k + 1) * Q).
    { destruct (Z.lt_ge_cases (q0 + 1) ((k + 1) * Q)) as [|Hge]; [done|].
      exfalso.
      assert (P * ((k + 1) * Q) ≤ P * (q0 + 1)) by nia.
      nia. }
    symmetry. apply Z.div_unique with (r := q0 + 1 - k * Q); lia.
Qed.

Lemma int_mul_1_3_exact n :
  Z.abs n < 2 ^ 48 → int_mul_1_3 n = Z.quot (13 * n) 10.
Proof.
  intros Hn. unfold int_mul_1_3.
  assert (2 ^ 48 < 2 ^ 53) by done.
  rewrite float_of_int_small by lia.
  unfold float_mul, float_1_3, round_binary64, int_of_float; cbn [mant expo].
  destruct (Z.eq_dec n 0) as [->|Hn0]; [done|].
  pose proof (headroom_magnitude (Z.abs n) ltac:(lia)) as [Hs Hq].
  cbv zeta in Hs, Hq.
  replace (Z.abs (n * 5854679515581645)) with (Z.abs n * 5854679515581645) by lia.
  set (s := excess_bits (Z.abs n * 5854679515581645)) in *.
  set (m := round_half_even (Z.abs n * 5854679515581645) s) in *.
  destruct (Z.leb_spec 0 (0 + -52 + s)); [lia|].
  replace (- (0 + -52 + s)) with (52 - s) by lia.
  assert (HQ : 0 < 2 ^ (52 - s)) by (apply Z.pow_pos_nonneg; lia).
  assert (Hm : 0 ≤ m).
  { unfold m. destruct (round_half_even_cases (Z.abs n * 5854679515581645) s
                          ltac:(lia)) as [->|[-> _]].
    - apply Z.div_pos; [lia | apply Z.pow_pos_nonneg; lia].
    - assert (0 ≤ Z.abs n * 5854679515581645 / 2 ^ s)
        by (apply Z.div_pos; [lia | apply Z.pow_pos_nonneg; lia]). lia. }
  destruct (Z.lt_trichotomy n 0) as [Hneg|[?|Hpos]]; [|done|].
  - replace (Z.sgn (n * 5854679515581645)) with (-1) by lia.
    replace (-1 * m) with (- m) by lia.
    replace (13 * n) with (- (13 * Z.abs n)) by lia.
    rewrite !Z.quot_opp_l by lia.
    rewrite !Z.quot_div_nonneg by lia. by rewrite Hq.
  - replace (Z.sgn (n * 5854679515581645)) with 1 by lia.
    replace (1 * m) with m by lia.
    replace (13 * n) with (13 * Z.abs n) by lia.
    rewrite !Z.quot_div_nonneg by lia. by rewrite Hq.
Qed.

Section Properties.
Context {ObjectId : Type} `{!Bson ObjectId} {unicode : Unicode}.
Implicit Types (s : Db) (build : Build) (bc : BuildComponent).
Implicit Types (l : list BuildComponent) (c m : string) (est w : Z).

(** ** The store under reads *)

Lemma logged_nil s : logged s [] = s.
Proof. destruct s; unfold logged; simpl. by rewrite app_nil_r. Qed.

Lemma logged_app s ks ks' : logged (logged s ks) ks' = logged s (ks ++ ks').
Proof. unfold logged; simpl. by rewrite app_assoc. Qed.

Lemma logged_build s ks : db_build (logged s ks) = db_build s.
Proof. reflexivity. Qed.

Lemma bind_run {A B} (m : M A) (k : A → M B) s :
  bind m k s = match m s with
               | (inr a, s') => k a s'
               | (inl e, s') => (inl e, s')
               end.
Proof. reflexivity. Qed.

Lemma find_one_run k s :
  find_one k s = (inr (db_component s !! k), logged s [k]).
Proof. reflexivity. Qed.

Lemma oid_Some id_str k s :
  ObjectId_of_str id_str = Some k → oid id_str s = (inr k, s).
Proof. intros Hk. unfold oid. by rewrite Hk. Qed.

Lemma oid_None id_str s :
  ObjectId_of_str id_str = None → oid id_str s = (inl invalid_id, s).
Proof. intros Hk. unfold oid. by rewrite Hk. Qed.

Lemma lookup_ref_Some s bc k :
  ObjectId_of_str (component_id bc) = Some k →
  lookup_ref s bc = db_component s !! k.
Proof. intros Hk. unfold lookup_ref. by rewrite Hk. Qed.

Lemma lookup_ref_None s bc :
  ObjectId_of_str (component_id bc) = None → lookup_ref s bc = None.
Proof. intros Hk. unfold lookup_ref. by rewrite Hk. Qed.

Lemma well_formed_ref_cons_inv bc l :
  Forall well_formed_ref (bc :: l) →
  ∃ k, ObjectId_of_str (component_id bc) = Some k ∧ Forall well_formed_ref l.
Proof.
  intros Hall. apply Forall_cons in Hall as [[k Hk] Hl]. by exists k.
Qed.

(** A loop that parses, looks up and folds: it raises at the first
    malformed identifier, having queried the keys before it. *)
Lemma for_each_lookup {B} (f : B → BuildComponent → option Component → B) l :
  ∀ (acc : B) s,
    for_each (λ acc bc,
        let* k := oid (component_id bc) in
        let* doc := find_one k in
        ret (f acc bc doc)) acc l s
    = (if decide (Forall well_formed_ref l)
       then inr (foldl (λ acc bc, f acc bc (lookup_ref s bc)) acc l)
       else inl invalid_id,
       logged s (parsed_prefix l)).
Proof.
  induction l as [|bc l IH]; intros acc s.
  - cbn [for_each parsed_prefix foldl]. rewrite logged_nil.
    by rewrite decide_True by constructor.
  - cbn [for_each parsed_prefix foldl].
    unfold bind at 1. unfold bind at 1. unfold oid.
    assert (Hlk : ∀ k, ObjectId_of_str (component_id bc) = Some k →
                       lookup_ref s bc = db_component s !! k).
    { intros k Hk. unfold lookup_ref. by rewrite Hk. }
    destruct (ObjectId_of_str (component_id bc)) as [k|] eqn:Hk.
    + unfold ret at 1, find_one at 1. cbn [fst snd].
      unfold bind at 1, ret at 1. rewrite IH, (Hlk k eq_refl).
      change (mkDb (db_component s) (db_build s) (db_queries s ++ [k]))
        with (logged s [k]).
      rewrite logged_app. cbn [app].
      destruct (decide (Forall well_formed_ref l)) as [Hl|Hl].
      * rewrite decide_True; [done|].
        constructor; [by exists k | done].
      * rewrite decide_False; [done|].
        intros Hall. by apply Forall_cons in Hall as [_ ?].
    + unfold raise. rewrite logged_nil. rewrite decide_False; [done|].
      intros Hall. apply Forall_cons in Hall as [[k' Hk'] _]. congruence.
Qed.

(** ** Wattage: the loop against the sum *)

Lemma tdp_fold s l : ∀ acc,
  foldl (λ total_tdp bc,
           match truthy_int (lookup_ref s bc) tdp with
           | Some t => total_tdp + t
           | None => total_tdp
           end) acc l
  = acc + tdp_total (omap (lookup_ref s) l).
Proof.
  induction l as [|bc l IH]; intros acc; simpl.
  - unfold tdp_total, declared_tdps, sum_Z; simpl. lia.
  - rewrite IH. unfold tdp_total, declared_tdps, truthy_int.
    destruct (lookup_ref s bc) as [c|]; simpl; [|done].
    destruct (tdp c) as [t|]; simpl; [|done].
    destruct (Z.eqb_spec t 0); unfold sum_Z, omap; simpl; lia.
Qed.

Lemma estimate_wattage_run build s :
  estimate_wattage build s
  = (if decide (well_formed build)
     then inr (headroom (tdp_total (resolved s build)))
     else inl invalid_id,
     logged s (parsed_prefix (components build))).
Proof.
  unfold estimate_wattage, bind, well_formed.
  rewrite (for_each_lookup (λ total_tdp bc comp,
             match truthy_int comp tdp with
             | Some t => total_tdp + t
             | None => total_tdp
             end)).
  destruct (decide (Forall well_formed_ref (components build))); [|done].
  by rewrite tdp_fold.
Qed.

(** ** The dict of the comprehension against the role mapping *)

Lemma comps_fold s role l : ∀ comps : gmap string (option Component),
  comps_get (foldl (λ comps bc, <[bc_type bc := lookup_ref s bc]> comps) comps l) role
  = match last (filter (λ bc, bc_type bc = role) l) with
    | Some bc => lookup_ref s bc
    | None => comps_get comps role
    end.
Proof.
  induction l as [|bc l IH]; intros comps; cbn [foldl]; [done|].
  rewrite IH, filter_cons.
  destruct (decide (bc_type bc = role)) as [<-|Hne].
  - rewrite last_cons.
    destruct (last (filter _ l)); [done|].
    unfold comps_get. by rewrite lookup_insert_eq.
  - destruct (last (filter _ l)); [done|].
    unfold comps_get. by rewrite lookup_insert_ne.
Qed.

Lemma comps_get_role s build role :
  comps_get (foldl (λ comps bc, <[bc_type bc := lookup_ref s bc]> comps)
               ∅ (components build)) role
  = role_lookup s build role.
Proof.
  rewrite comps_fold. unfold role_lookup.
  destruct (last _); [done|]. unfold comps_get. by rewrite lookup_empty.
Qed.

(** ** The checker: threaded appends against the rule table *)

Lemma socket_step (roles : Roles) est (issues : list string) :
  match truthy_str (roles "cpu") socket, truthy_str (roles "motherboard") socket with
  | Some c, Some m =>
      if negb (String.eqb (lower c) (lower m))
      then issues ++ ["CPU socket " +:+ c +:+ " not compatible with motherboard " +:+ m]
      else issues
  | _, _ => issues
  end = issues ++ socket_rule roles est.
Proof. unfold socket_rule. repeat case_match; by rewrite ?app_nil_r. Qed.

Lemma ram_step (roles : Roles) est (issues : list string) :
  match truthy_str (roles "ram") ram_type, truthy_str (roles "motherboard") ram_type with
  | Some r, Some m =>
      if negb (String.eqb (lower r) (lower m))
      then issues ++ ["RAM type " +:+ r +:+ " not compatible with motherboard " +:+ m]
      else issues
  | _, _ => issues
  end = issues ++ ram_rule roles est.
Proof. unfold ram_rule. repeat case_match; by rewrite ?app_nil_r. Qed.

Lemma gpu_step (roles : Roles) est (issues : list string) :
  match truthy_int (roles "gpu") gpu_length_mm,
        truthy_int (roles "case") max_gpu_length_mm with
  | Some g, Some c =>
      if c <? g then issues ++ ["GPU length exceeds case maximum"] else issues
  | _, _ => issues
  end = issues ++ gpu_rule roles est.
Proof. unfold gpu_rule. repeat case_match; by rewrite ?app_nil_r. Qed.

Lemma cooler_step (roles : Roles) est (issues : list string) :
  match truthy_int (roles "cooler") cooler_height_mm,
        truthy_int (roles "case") case_max_cooler_height_mm with
  | Some h, Some c =>
      if c <? h then issues ++ ["Cooler height exceeds case maximum"] else issues
  | _, _ => issues
  end = issues ++ cooler_rule roles est.
Proof. unfold cooler_rule. repeat case_match; by rewrite ?app_nil_r. Qed.

Lemma psu_step (roles : Roles) est_watts (issues : list string) :
  match truthy_int (roles "psu") psu_wattage with
  | Some w =>
      if negb (est_watts =? 0) then
        if w <? est_watts
        then issues ++ ["PSU wattage too low. Estimated " +:+ str_int est_watts
                        +:+ "W, PSU is " +:+ str_int w +:+ "W"]
        else issues
      else issues
  | None => issues
  end = issues ++ psu_rule roles est_watts.
Proof.
  unfold psu_rule. destruct (truthy_int _ _); [|by rewrite app_nil_r].
  destruct (est_watts =? 0); simpl; [by rewrite app_nil_r|].
  destruct (_ <? _); by rewrite ?app_nil_r.
Qed.

Lemma psu_form_step (roles : Roles) est (issues : list string) :
  match truthy_str (roles "psu") psu_form_factor,
        truthy_list (roles "case") case_supported_psu with
  | Some f, Some l =>
      if negb (str_in f l)
      then issues ++ ["PSU form factor not supported by case"] else issues
  | _, _ => issues
  end = issues ++ psu_form_rule roles est.
Proof. unfold psu_form_rule. repeat case_match; by rewrite ?app_nil_r. Qed.

Lemma mobo_form_step (roles : Roles) est (issues : list string) :
  match truthy_str (roles "motherboard") motherboard_form_factor,
        truthy_list (roles "case") case_motherboard_support with
  | Some f, Some l =>
      if negb (str_in f l)
      then issues ++ ["Motherboard form factor not supported by case"] else issues
  | _, _ => issues
  end = issues ++ mobo_form_rule roles est.
Proof. unfold mobo_form_rule. repeat case_match; by rewrite ?app_nil_r. Qed.

Lemma rule_table_unfold (roles : Roles) est :
  rule_table roles est
  = socket_rule roles est ++ ram_rule roles est ++ gpu_rule roles est
    ++ cooler_rule roles est ++ psu_rule roles est ++ psu_form_rule roles est
    ++ mobo_form_rule roles est.
Proof. unfold rule_table, rules; simpl. by rewrite app_nil_r. Qed.

(** Turns the outermost [let] of a handler into a local definition. *)
Ltac pop_let :=
  lazymatch goal with
  | |- (let x := ?v in @?body x) ?s = ?rhs =>
      let y := fresh x in
      pose (y := v); change (body y s = rhs); cbv beta
  end.

Lemma compatibility_issues_run build s :
  compatibility_issues build s
  = if decide (well_formed build)
    then (inr (rule_table (role_lookup s build)
                 (headroom (tdp_total (resolved s build)))),
          logged s (parsed_prefix (components build)
                    ++ parsed_prefix (components build)))
    else (inl invalid_id, logged s (parsed_prefix (components build))).
Proof.
  cbv beta delta [compatibility_issues]. rewrite bind_run.
  rewrite (for_each_lookup (λ comps bc doc, <[bc_type bc := doc]> comps)).
  fold (well_formed build).
  destruct (decide (well_formed build)) as [Hwf|Hwf]; [|done].
  set (roles := role_lookup s build).
  set (s1 := logged s (parsed_prefix (components build))).
  rewrite !(comps_get_role s build). fold roles.
  do 12 pop_let.
  rewrite bind_run, estimate_wattage_run, decide_True by done.
  change (resolved s1 build) with (resolved s build).
  set (est := headroom (tdp_total (resolved s build))).
  do 3 pop_let. unfold ret.
  assert (H1 : issues0 = issues ++ socket_rule roles est)
    by apply (socket_step roles est).
  assert (H2 : issues1 = issues0 ++ ram_rule roles est)
    by apply (ram_step roles est).
  assert (H3 : issues2 = issues1 ++ gpu_rule roles est)
    by apply (gpu_step roles est).
  assert (H4 : issues3 = issues2 ++ cooler_rule roles est)
    by apply (cooler_step roles est).
  assert (H5 : issues4 = issues3 ++ psu_rule roles est)
    by apply (psu_step roles est).
  assert (H6 : issues5 = issues4 ++ psu_form_rule roles est)
    by apply (psu_form_step roles est).
  assert (H7 : issues6 = issues5 ++ mobo_form_rule roles est)
    by apply (mobo_form_step roles est).
  rewrite H7, H6, H5, H4, H3, H2, H1. subst issues.
  rewrite rule_table_unfold. unfold s1. rewrite logged_app.
  simpl. by rewrite <- !app_assoc.
Qed.

(** ** Build creation: strict resolution, then the checker *)

Lemma first_unresolved_cons s bc l :
  first_unresolved s (bc :: l)
  = if decide (lookup_ref s bc = None) then Some (0%nat, bc)
    else prod_map S id <$> first_unresolved s l.
Proof. reflexivity. Qed.

(** The pricing loop stops at the first reference that does not
    resolve. *)
Lemma pricing_loop s0 l : ∀ (total : float) s,
  db_component s = db_component s0 →
  for_each (λ total bc,
      let* k := oid (component_id bc) in
      let* doc := find_one k in
      match doc with
      | None => raise (HTTPException 404
                  (Message ("Component not found: " +:+ component_id bc)))
      | Some d =>
          ret (match price d with
               | Some p => if truthy_float p then PrimFloat.add total p else total
               | None => total
               end)
      end) total l s
  = match first_unresolved s0 l with
    | Some (i, bc) =>
        (inl (strict_error bc), logged s (parsed_prefix (take (S i) l)))
    | None =>
        (inr (foldl PrimFloat.add total (omap billed_price (omap (lookup_ref s0) l))),
         logged s (parsed_prefix l))
    end.
Proof.
  induction l as [|bc l IH]; intros total s Hs.
  - cbn. by rewrite logged_nil.
  - cbn [for_each]. rewrite first_unresolved_cons.
    rewrite bind_run, bind_run.
    destruct (ObjectId_of_str (component_id bc)) as [k|] eqn:Hk.
    + rewrite (oid_Some _ k) by done.
      rewrite (lookup_ref_Some _ _ k) by done.
      rewrite bind_run, find_one_run, Hs.
      destruct (db_component s0 !! k) as [d|] eqn:Hd.
      * rewrite decide_False by done.
        unfold ret at 1.
        rewrite IH by done.
        destruct (first_unresolved s0 l) as [[i bc']|] eqn:Hl; simpl.
        -- by rewrite Hk, logged_app.
        -- rewrite Hk, (lookup_ref_Some _ _ k), Hd, logged_app by done. simpl.
           f_equal. unfold billed_price at 2.
           destruct (price d) as [p|]; [|done].
           by destruct (truthy_float p).
      * rewrite decide_True by done. unfold raise. simpl.
        rewrite Hk. unfold strict_error. by rewrite Hk.
    + rewrite oid_None by done.
      rewrite lookup_ref_None, decide_True by done. simpl.
      rewrite Hk. unfold strict_error. by rewrite Hk, logged_nil.
Qed.

Lemma first_unresolved_None_well_formed s l :
  first_unresolved s l = None → Forall well_formed_ref l.
Proof.
  intros Hnone. apply list_find_None in Hnone.
  eapply Forall_impl; [exact Hnone|].
  intros bc Hbc. unfold well_formed_ref. unfold lookup_ref in Hbc.
  destruct (ObjectId_of_str (component_id bc)); [by eexists | done].
Qed.

Lemma create_build_run new_id build s :
  create_build new_id build s
  = match first_unresolved s (components build) with
    | Some (i, bc) =>
        (inl (strict_error bc),
         logged s (parsed_prefix (take (S i) (components build))))
    | None =>
        let total := price_sum (resolved s build) in
        let s' := logged s (parsed_prefix (components build)
                            ++ parsed_prefix (components build)
                            ++ parsed_prefix (components build)) in
        match rule_table (role_lookup s build)
                (headroom (tdp_total (resolved s build))) with
        | [] =>
            (inr (mkCreated (str_of_ObjectId new_id) total),
             mkDb (db_component s')
                  (db_build s' ++ [(new_id, stored_document build total)])
                  (db_queries s'))
        | problem :: problems =>
            (inl (HTTPException 400 (Errors (problem :: problems))), s')
        end
    end.
Proof.
  unfold create_build. unfold bind at 1.
  rewrite (pricing_loop s) by done.
  destruct (first_unresolved s (components build)) as [[i bc]|] eqn:Hfirst; [done|].
  unfold bind at 1. rewrite compatibility_issues_run.
  rewrite decide_True by (by eapply first_unresolved_None_well_formed).
  rewrite logged_app.
  change (role_lookup (logged s ?ks) build) with (role_lookup s build).
  change (resolved (logged s (parsed_prefix (components build))) build)
    with (resolved s build).
  cbv zeta.
  destruct (rule_table _ _) as [|problem problems]; [|done].
  unfold bind, insert_one, ret. cbn [fst snd]. reflexivity.
Qed.

(** ** Telling the messages of the rules apart *)

Lemma append_cons x (a b : string) : String x a +:+ b = String x (a +:+ b).
Proof. reflexivity. Qed.

Lemma append_assoc (a b c : string) : (a +:+ b) +:+ c = a +:+ b +:+ c.
Proof. induction a as [|x a IH]; [done|]. by rewrite !append_cons, IH. Qed.

Lemma append_nil_r (a : string) : a +:+ "" = a.
Proof. induction a as [|x a IH]; [done|]. by rewrite append_cons, IH. Qed.

Lemma prefix_append (p x : string) : String.prefix p (p +:+ x) = true.
Proof.
  induction p as [|a p IH]; [by destruct x|].
  rewrite append_cons. simpl. by destruct (ascii_dec a a).
Qed.

Lemma contains_middle (before needle after : string) :
  contains (before +:+ needle +:+ after) needle.
Proof. by exists before, after. Qed.

Lemma socket_message_contains c m :
  contains (socket_message c m) c ∧ contains (socket_message c m) m.
Proof.
  split.
  - apply contains_middle.
  - exists ("CPU socket " +:+ c +:+ " not compatible with motherboard "), "".
    unfold socket_message. by rewrite append_nil_r, !append_assoc.
Qed.

Lemma psu_message_contains est w :
  contains (psu_message est w) (str_int est)
  ∧ contains (psu_message est w) (str_int w).
Proof.
  split.
  - apply contains_middle.
  - exists ("PSU wattage too low. Estimated " +:+ str_int est +:+ "W, PSU is "), "W".
    unfold psu_message. by rewrite !append_assoc.
Qed.

(** Every rule yields nothing or its one message. *)
Lemma socket_rule_cases (roles : Roles) est :
  socket_rule roles est = []
  ∨ ∃ c m, socket_rule roles est = [socket_message c m].
Proof. unfold socket_rule. repeat case_match; eauto. Qed.

Lemma ram_rule_cases (roles : Roles) est :
  ram_rule roles est = [] ∨ ∃ r m, ram_rule roles est = [ram_message r m].
Proof. unfold ram_rule. repeat case_match; eauto. Qed.

Lemma gpu_rule_cases (roles : Roles) est :
  gpu_rule roles est = [] ∨ gpu_rule roles est = [gpu_message].
Proof. unfold gpu_rule. repeat case_match; eauto. Qed.

Lemma cooler_rule_cases (roles : Roles) est :
  cooler_rule roles est = [] ∨ cooler_rule roles est = [cooler_message].
Proof. unfold cooler_rule. repeat case_match; eauto. Qed.

Lemma psu_rule_cases (roles : Roles) est :
  psu_rule roles est = [] ∨ ∃ w, psu_rule roles est = [psu_message est w].
Proof. unfold psu_rule. repeat case_match; eauto. Qed.

Lemma psu_form_rule_cases (roles : Roles) est :
  psu_form_rule roles est = [] ∨ psu_form_rule roles est = [psu_form_message].
Proof. unfold psu_form_rule. repeat case_match; eauto. Qed.

Lemma mobo_form_rule_cases (roles : Roles) est :
  mobo_form_rule roles est = []
  ∨ mobo_form_rule roles est = [mobo_form_message].
Proof. unfold mobo_form_rule. repeat case_match; eauto. Qed.

Lemma filter_singleton_True {A} (P : A → Prop) `{∀ x, Decision (P x)} (x : A) :
  P x → filter P [x] = [x].
Proof. intros HP. by rewrite filter_cons, decide_True. Qed.

Lemma filter_singleton_False {A} (P : A → Prop) `{∀ x, Decision (P x)} (x : A) :
  ¬ P x → filter P [x] = [].
Proof. intros HP. by rewrite filter_cons, decide_False. Qed.

(** Closes [filter P (rule roles est) = ...] from the shape of the rule. *)
Ltac rule_messages cases :=
  destruct cases as [->|Hcase];
    [reflexivity|];
  repeat match type of Hcase with
         | ∃ _, _ => destruct Hcase as [? Hcase]
         end;
  rewrite Hcase;
  first [ apply filter_singleton_True; first [apply prefix_append | reflexivity]
        | apply filter_singleton_False;
          unfold socket_message, ram_message, psu_message; discriminate ].

(** Only the first rule speaks of the CPU socket. *)
Lemma socket_messages_rule_table (roles : Roles) est :
  socket_messages (rule_table roles est) = socket_rule roles est.
Proof.
  rewrite rule_table_unfold. unfold socket_messages. rewrite !filter_app.
  assert (filter (λ msg, String.prefix "CPU socket " msg = true)
            (socket_rule roles est) = socket_rule roles est) as ->.
  { destruct (socket_rule_cases roles est) as [->|(c & m & ->)]; [done|].
    apply filter_singleton_True, prefix_append. }
  assert (filter (λ msg, String.prefix "CPU socket " msg = true)
            (ram_rule roles est) = []) as ->
    by rule_messages (ram_rule_cases roles est).
  assert (filter (λ msg, String.prefix "CPU socket " msg = true)
            (gpu_rule roles est) = []) as ->
    by rule_messages (gpu_rule_cases roles est).
  assert (filter (λ msg, String.prefix "CPU socket " msg = true)
            (cooler_rule roles est) = []) as ->
    by rule_messages (cooler_rule_cases roles est).
  assert (filter (λ msg, String.prefix "CPU socket " msg = true)
            (psu_rule roles est) = []) as ->
    by rule_messages (psu_rule_cases roles est).
  assert (filter (λ msg, String.prefix "CPU socket " msg = true)
            (psu_form_rule roles est) = []) as ->
    by rule_messages (psu_form_rule_cases roles est).
  assert (filter (λ msg, String.prefix "CPU socket " msg = true)
            (mobo_form_rule roles est) = []) as ->
    by rule_messages (mobo_form_rule_cases roles est).
  by rewrite !app_nil_r.
Qed.

(** Only the third rule says [gpu_message]. *)
Lemma gpu_messages_rule_table (roles : Roles) est :
  gpu_messages (rule_table roles est) = gpu_rule roles est.
Proof.
  rewrite rule_table_unfold. unfold gpu_messages. rewrite !filter_app.
  assert (filter (λ msg, msg = gpu_message) (socket_rule roles est) = []) as ->
    by rule_messages (socket_rule_cases roles est).
  assert (filter (λ msg, msg = gpu_message) (ram_rule roles est) = []) as ->
    by rule_messages (ram_rule_cases roles est).
  assert (filter (λ msg, msg = gpu_message) (gpu_rule roles est)
          = gpu_rule roles est) as ->
    by rule_messages (gpu_rule_cases roles est).
  assert (filter (λ msg, msg = gpu_message) (cooler_rule roles est) = []) as ->
    by rule_messages (cooler_rule_cases roles est).
  assert (filter (λ msg, msg = gpu_message) (psu_rule roles est) = []) as ->
    by rule_messages (psu_rule_cases roles est).
  assert (filter (λ msg, msg = gpu_message) (psu_form_rule roles est) = []) as ->
    by rule_messages (psu_form_rule_cases roles est).
  assert (filter (λ msg, msg = gpu_message) (mobo_form_rule roles est) = []) as ->
    by rule_messages (mobo_form_rule_cases roles est).
  by rewrite !app_nil_r.
Qed.

(** Only the fifth rule speaks of a wattage too low. *)
Lemma psu_messages_rule_table (roles : Roles) est :
  psu_messages (rule_table roles est) = psu_rule roles est.
Proof.
  rewrite rule_table_unfold. unfold psu_messages. rewrite !filter_app.
  assert (filter (λ msg, String.prefix "PSU wattage too low" msg = true)
            (socket_rule roles est) = []) as ->
    by rule_messages (socket_rule_cases roles est).
  assert (filter (λ msg, String.prefix "PSU wattage too low" msg = true)
            (ram_rule roles est) = []) as ->
    by rule_messages (ram_rule_cases roles est).
  assert (filter (λ msg, String.prefix "PSU wattage too low" msg = true)
            (gpu_rule roles est) = []) as ->
    by rule_messages (gpu_rule_cases roles est).
  assert (filter (λ msg, String.prefix "PSU wattage too low" msg = true)
            (cooler_rule roles est) = []) as ->
    by rule_messages (cooler_rule_cases roles est).
  assert (filter (λ msg, String.prefix "PSU wattage too low" msg = true)
            (psu_rule roles est) = psu_rule roles est) as ->
    by rule_messages (psu_rule_cases roles est).
  assert (filter (λ msg, String.prefix "PSU wattage too low" msg = true)
            (psu_form_rule roles est) = []) as ->
    by rule_messages (psu_form_rule_cases roles est).
  assert (filter (λ msg, String.prefix "PSU wattage too low" msg = true)
            (mobo_form_rule roles est) = []) as ->
    by rule_messages (mobo_form_rule_cases roles est).
  by rewrite !app_nil_r.
Qed.

(** *** What each of the three rules decides on *)

Lemma truthy_str_Some (doc : option Component) field v :
  truthy_str doc field = Some v ↔ (doc ≫= field) = Some v ∧ v ≠ "".
Proof.
  unfold truthy_str. destruct doc as [d|]; simpl; [|intuition congruence].
  destruct (field d) as [x|]; [|intuition congruence].
  destruct (String.eqb_spec x ""); intuition congruence.
Qed.

Lemma truthy_int_Some (doc : option Component) field v :
  truthy_int doc field = Some v ↔ (doc ≫= field) = Some v ∧ v ≠ 0.
Proof.
  unfold truthy_int. destruct doc as [d|]; simpl; [|intuition congruence].
  destruct (field d) as [x|]; [|intuition congruence].
  destruct (Z.eqb_spec x 0); intuition congruence.
Qed.

Lemma socket_rule_fires (roles : Roles) est c m :
  (roles "cpu" ≫= socket) = Some c → (roles "motherboard" ≫= socket) = Some m →
  c ≠ "" → m ≠ "" → lower c ≠ lower m →
  socket_rule roles est = [socket_message c m].
Proof.
  intros Hc Hm Hc0 Hm0 Hne. unfold socket_rule.
  rewrite (proj2 (truthy_str_Some _ _ c)), (proj2 (truthy_str_Some _ _ m)) by done.
  by destruct (String.eqb_spec (lower c) (lower m)).
Qed.

Lemma socket_rule_fired (roles : Roles) est :
  socket_rule roles est ≠ [] →
  ∃ c m, (roles "cpu" ≫= socket) = Some c
         ∧ (roles "motherboard" ≫= socket) = Some m
         ∧ c ≠ "" ∧ m ≠ "" ∧ lower c ≠ lower m.
Proof.
  unfold socket_rule.
  destruct (truthy_str (roles "cpu") socket) as [c|] eqn:Hc; [|done].
  destruct (truthy_str (roles "motherboard") socket) as [m|] eqn:Hm; [|done].
  apply truthy_str_Some in Hc as [Hc Hc0], Hm as [Hm Hm0].
  destruct (String.eqb_spec (lower c) (lower m)); [done|].
  intros _. by exists c, m.
Qed.

Lemma gpu_rule_fires_when (roles : Roles) est :
  gpu_rule roles est = [gpu_message]
  ↔ ∃ g cap, (roles "gpu" ≫= gpu_length_mm) = Some g
           ∧ (roles "case" ≫= max_gpu_length_mm) = Some cap
           ∧ g ≠ 0 ∧ cap ≠ 0 ∧ cap < g.
Proof.
  unfold gpu_rule. split.
  - destruct (truthy_int (roles "gpu") _) as [g|] eqn:Hg; [|done].
    destruct (truthy_int (roles "case") _) as [cap|] eqn:Hc; [|done].
    apply truthy_int_Some in Hg as [Hg Hg0], Hc as [Hc Hc0].
    destruct (Z.ltb_spec cap g); [|done]. intros _. by exists g, cap.
  - intros (g & cap & Hg & Hc & Hg0 & Hc0 & Hlt).
    rewrite (proj2 (truthy_int_Some _ _ g)), (proj2 (truthy_int_Some _ _ cap)) by done.
    by destruct (Z.ltb_spec cap g); [|lia].
Qed.

Lemma psu_rule_fires (roles : Roles) est w :
  (roles "psu" ≫= psu_wattage) = Some w → w ≠ 0 → est ≠ 0 → w < est →
  psu_rule roles est = [psu_message est w].
Proof.
  intros Hw Hw0 Hest Hlt. unfold psu_rule.
  rewrite (proj2 (truthy_int_Some _ _ w)) by done.
  destruct (Z.eqb_spec est 0); [done|].
  by destruct (Z.ltb_spec w est); [|lia].
Qed.

Lemma psu_rule_fired (roles : Roles) est :
  psu_rule roles est ≠ [] →
  ∃ w, (roles "psu" ≫= psu_wattage) = Some w ∧ w ≠ 0 ∧ est ≠ 0 ∧ w < est.
Proof.
  unfold psu_rule.
  destruct (truthy_int (roles "psu") _) as [w|] eqn:Hw; [|done].
  apply truthy_int_Some in Hw as [Hw Hw0].
  destruct (Z.eqb_spec est 0); [done|].
  destruct (Z.ltb_spec w est); [|done].
  intros _. by exists w.
Qed.

Lemma eval_estimate_wattage build s :
  well_formed build →
  eval (estimate_wattage build) s
  = inr (headroom (tdp_total (resolved s build))).
Proof.
  intros Hwf. unfold eval. by rewrite estimate_wattage_run, decide_True.
Qed.

Lemma eval_compatibility_issues build s :
  well_formed build →
  eval (compatibility_issues build) s
  = inr (rule_table (role_lookup s build)
           (headroom (tdp_total (resolved s build)))).
Proof.
  intros Hwf. unfold eval. by rewrite compatibility_issues_run, decide_True.
Qed.

(** ** The estimate *)

(** C1. On every build whose references resolve, [estimate_wattage]
    returns 0 when no resolved component declares a tdp, and otherwise
    the integer part of the binary64 product of the tdp total and 1.3,
    components without a tdp adding nothing; for totals below 2^48 that
    is exactly the truncation of 13 * total / 10, and declared tdps
    [100; 150] give 325. *)
Theorem estimate_wattage_headroom s build :
  well_formed build →
  let tdps := declared_tdps (resolved s build) in
  let total := sum_Z tdps in
  (tdps = [] → eval (estimate_wattage build) s = inr 0)
  ∧ (total ≠ 0 →
     eval (estimate_wattage build) s
     = inr (int_of_float (float_mul (float_of_int total) float_1_3)))
  ∧ (Z.abs total < 2 ^ 48 →
     eval (estimate_wattage build) s = inr (Z.quot (13 * total) 10))
  ∧ (tdps = [100; 150] → eval (estimate_wattage build) s = inr 325).
Proof.
  intros Hwf tdps total.
  rewrite eval_estimate_wattage by done.
  fold tdps. change (tdp_total (resolved s build)) with total.
  assert (Hexact : Z.abs total < 2 ^ 48 →
                   headroom total = Z.quot (13 * total) 10).
  { intros Hlt. unfold headroom.
    destruct (Z.eqb_spec total 0) as [->|_]; [done|].
    by apply int_mul_1_3_exact. }
  repeat split.
  - intros Hnil. unfold total. by rewrite Hnil.
  - intros Hne. unfold headroom.
    by destruct (Z.eqb_spec total 0).
  - intros Hlt. by rewrite Hexact.
  - intros Htdps. unfold total. by rewrite Htdps.
Qed.

(** ** The checker *)

(** C2 (amended). The checker runs all seven rules, whatever the earlier
    ones found: its result is the concatenation of the seven rule outputs
    in the fixed order.  A build on which the socket rule and the PSU
    sizing rule both fire (the cpu and the motherboard declare non-empty
    sockets that differ once lower-cased, the psu declares a non-zero
    wattage below a non-zero estimate) gets both messages, the socket
    message first. *)
Theorem all_rules_evaluated_in_order s build :
  well_formed build →
  let roles := role_lookup s build in
  let est := headroom (tdp_total (resolved s build)) in
  eval (estimate_wattage build) s = inr est
  ∧ eval (compatibility_issues build) s
    = inr (socket_rule roles est ++ ram_rule roles est ++ gpu_rule roles est
           ++ cooler_rule roles est ++ psu_rule roles est
           ++ psu_form_rule roles est ++ mobo_form_rule roles est)
  ∧ ∀ cpu mobo psu c m w,
      roles "cpu" = Some cpu → roles "motherboard" = Some mobo →
      socket cpu = Some c → socket mobo = Some m →
      c ≠ "" → m ≠ "" → lower c ≠ lower m →
      roles "psu" = Some psu → psu_wattage psu = Some w →
      w ≠ 0 → est ≠ 0 → w < est →
      ∃ between after,
        eval (compatibility_issues build) s
        = inr (socket_message c m :: between ++ psu_message est w :: after).
Proof.
  intros Hwf roles est.
  rewrite eval_estimate_wattage, eval_compatibility_issues by done.
  fold roles est. rewrite rule_table_unfold.
  split; [done|]. split; [done|].
  intros cpu mobo psu c m w Hcpu Hmobo Hc Hm Hc0 Hm0 Hcm Hpsu Hw Hw0 Hest Hlt.
  exists (ram_rule roles est ++ gpu_rule roles est ++ cooler_rule roles est),
         (psu_form_rule roles est ++ mobo_form_rule roles est).
  assert (socket_rule roles est = [socket_message c m]) as ->.
  { unfold socket_rule, truthy_str. rewrite Hcpu, Hmobo, Hc, Hm.
    destruct (String.eqb_spec c ""); [done|].
    destruct (String.eqb_spec m ""); [done|].
    by destruct (String.eqb_spec (lower c) (lower m)). }
  assert (psu_rule roles est = [psu_message est w]) as ->.
  { unfold psu_rule, truthy_int. rewrite Hpsu, Hw.
    destruct (Z.eqb_spec w 0); [done|].
    destruct (Z.eqb_spec est 0); [done|].
    by destruct (Z.ltb_spec w est); [|lia]. }
  simpl. by rewrite <- !app_assoc.
Qed.

(** C3 (amended). The socket rule fires exactly when the cpu and the
    motherboard both declare a non-empty socket and the two differ once
    lower-cased by [str.lower]; it then contributes one message, which
    contains both values as declared; on sockets with equal lower-cased
    forms it contributes none.  On ASCII sockets, whatever [str.lower]
    does elsewhere, that is: it is silent exactly when one of the two is
    empty or the two are equal up to the case of the letters A to Z. *)
Theorem socket_rule_fires_iff s build :
  well_formed build →
  let cpu_socket := role_lookup s build "cpu" ≫= socket in
  let mobo_socket := role_lookup s build "motherboard" ≫= socket in
  ∃ issues,
    eval (compatibility_issues build) s = inr issues
    ∧ (socket_messages issues ≠ []
       ↔ ∃ c m, cpu_socket = Some c ∧ mobo_socket = Some m
                ∧ c ≠ "" ∧ m ≠ "" ∧ lower c ≠ lower m)
    ∧ (∀ c m, cpu_socket = Some c → mobo_socket = Some m →
         c ≠ "" → m ≠ "" → lower c ≠ lower m →
         socket_messages issues = [socket_message c m]
         ∧ contains (socket_message c m) c ∧ contains (socket_message c m) m)
    ∧ (∀ c m, cpu_socket = Some c → mobo_socket = Some m →
         lower c = lower m → socket_messages issues = [])
    ∧ (∀ c m, cpu_socket = Some c → mobo_socket = Some m →
         isascii c = true → isascii m = true →
         (socket_messages issues = []
          ↔ c = "" ∨ m = "" ∨ lower_ascii_str c = lower_ascii_str m)).
Proof.
  intros Hwf cpu_socket mobo_socket.
  eexists. split; [by apply eval_compatibility_issues|].
  rewrite socket_messages_rule_table.
  set (roles := role_lookup s build).
  set (est := headroom _).
  split; [|split; [|split]].
  - split; [apply socket_rule_fired|].
    intros (c & m & Hc & Hm & Hc0 & Hm0 & Hne).
    by rewrite (socket_rule_fires roles est c m).
  - intros c m Hc Hm Hc0 Hm0 Hne.
    split; [by apply socket_rule_fires | apply socket_message_contains].
  - intros c m Hc Hm Heq.
    destruct (socket_rule roles est) as [|msg rest] eqn:Hrule; [done|].
    destruct (socket_rule_fired roles est) as (c' & m' & Hc' & Hm' & _ & _ & Hne);
      [by rewrite Hrule|].
    unfold cpu_socket, mobo_socket in Hc, Hm. fold roles in Hc, Hm.
    congruence.
  - intros c m Hc Hm Hca Hma.
    rewrite <- (lower_isascii c), <- (lower_isascii m) by done.
    unfold cpu_socket, mobo_socket in Hc, Hm. fold roles in Hc, Hm.
    split.
    + intros Hsilent.
      destruct (decide (c = "")) as [|Hc0]; [by left|].
      destruct (decide (m = "")) as [|Hm0]; [by right; left|].
      destruct (decide (lower c = lower m)) as [|Hne]; [by right; right|].
      by rewrite (socket_rule_fires roles est c m) in Hsilent.
    + intros Hquiet.
      destruct (socket_rule roles est) as [|msg rest] eqn:Hrule; [done|].
      destruct (socket_rule_fired roles est)
        as (c' & m' & Hc' & Hm' & Hc0 & Hm0 & Hne); [by rewrite Hrule|].
      assert (c' = c) as -> by congruence.
      assert (m' = m) as -> by congruence.
      by destruct Hquiet as [?|[?|?]].
Qed.

(** C4 (amended). The GPU clearance rule fires exactly when the gpu
    declares a non-zero length, the case a non-zero maximum, and the
    length exceeds the maximum; an attribute that is absent, or zero, on
    either side yields no violation. *)
Theorem gpu_rule_fires_iff s build :
  well_formed build →
  let gpu_length := role_lookup s build "gpu" ≫= gpu_length_mm in
  let case_max := role_lookup s build "case" ≫= max_gpu_length_mm in
  ∃ issues,
    eval (compatibility_issues build) s = inr issues
    ∧ (gpu_messages issues = [gpu_message]
       ↔ ∃ g cap, gpu_length = Some g ∧ case_max = Some cap
                ∧ g ≠ 0 ∧ cap ≠ 0 ∧ cap < g)
    ∧ (gpu_messages issues = [gpu_message] ∨ gpu_messages issues = [])
    ∧ (gpu_length = None ∨ case_max = None ∨ gpu_length = Some 0
       ∨ case_max = Some 0 → gpu_messages issues = []).
Proof.
  intros Hwf gpu_length case_max.
  eexists. split; [by apply eval_compatibility_issues|].
  rewrite gpu_messages_rule_table.
  set (roles := role_lookup s build).
  set (est := headroom _).
  split; [apply gpu_rule_fires_when|].
  split; [destruct (gpu_rule_cases roles est); auto|].
  intros Habsent.
  destruct (gpu_rule_cases roles est) as [|Hfired]; [done|].
  apply gpu_rule_fires_when in Hfired as (g & cap & Hg & Hc & Hg0 & Hc0 & _).
  unfold gpu_length, case_max in Habsent. fold roles in Habsent.
  destruct Habsent as [?|[?|[?|?]]]; congruence.
Qed.

(** C5 (amended). The PSU sizing rule fires exactly when the psu
    declares a non-zero wattage, the estimate is non-zero, and the
    wattage is below the estimate; its message contains the estimate and
    the declared wattage. *)
Theorem psu_rule_fires_iff s build :
  well_formed build →
  let declared := role_lookup s build "psu" ≫= psu_wattage in
  ∃ issues est,
    eval (compatibility_issues build) s = inr issues
    ∧ eval (estimate_wattage build) s = inr est
    ∧ (psu_messages issues ≠ []
       ↔ ∃ w, declared = Some w ∧ w ≠ 0 ∧ est ≠ 0 ∧ w < est)
    ∧ (∀ w, declared = Some w → w ≠ 0 → est ≠ 0 → w < est →
         psu_messages issues = [psu_message est w]
         ∧ contains (psu_message est w) (str_int est)
         ∧ contains (psu_message est w) (str_int w)).
Proof.
  intros Hwf declared.
  eexists _, _. split; [by apply eval_compatibility_issues|].
  split; [by apply eval_estimate_wattage|].
  rewrite psu_messages_rule_table.
  set (roles := role_lookup s build).
  set (est := headroom _).
  split.
  - split; [apply psu_rule_fired|].
    intros (w & Hw & Hw0 & Hest & Hlt).
    by rewrite (psu_rule_fires roles est w).
  - intros w Hw Hw0 Hest Hlt.
    split; [by apply psu_rule_fires | apply psu_message_contains].
Qed.

(** ** Strict and lenient resolution *)

Lemma parsed_prefix_app l1 l2 :
  Forall well_formed_ref l1 →
  parsed_prefix (l1 ++ l2) = parsed_prefix l1 ++ parsed_prefix l2.
Proof.
  induction 1 as [|bc l1 [k Hk] _ IH]; [done|].
  cbn [app parsed_prefix]. by rewrite Hk, IH.
Qed.

Lemma parsed_prefix_malformed pre bc post :
  Forall well_formed_ref pre → ObjectId_of_str (component_id bc) = None →
  parsed_prefix (pre ++ bc :: post) = parsed_prefix pre.
Proof.
  intros Hpre Hbc. rewrite parsed_prefix_app by done.
  cbn [parsed_prefix]. by rewrite Hbc, app_nil_r.
Qed.

Lemma parsed_prefix_take n l :
  parsed_prefix (take n l) `prefix_of` parsed_prefix l.
Proof.
  revert n. induction l as [|bc l IH]; intros [|n]; cbn [take parsed_prefix];
    try apply prefix_nil.
  destruct (ObjectId_of_str (component_id bc)); [|done].
  by apply prefix_cons.
Qed.

Lemma not_well_formed_malformed build pre bc post :
  components build = pre ++ bc :: post →
  ObjectId_of_str (component_id bc) = None → ¬ well_formed build.
Proof.
  intros Hl Hbc Hwf. unfold well_formed in Hwf. rewrite Hl in Hwf.
  apply Forall_app in Hwf as [_ Hwf]. apply Forall_cons in Hwf as [[k Hk] _].
  congruence.
Qed.

(** A reference that does not resolve stops the pricing loop, at it or
    before it. *)
Lemma first_unresolved_exists s pre bc post :
  lookup_ref s bc = None →
  ∃ i bc', first_unresolved s (pre ++ bc :: post) = Some (i, bc')
           ∧ (i ≤ length pre)%nat.
Proof.
  intros Hbc. unfold first_unresolved.
  destruct (list_find _ _) as [[i bc']|] eqn:Hfind.
  - exists i, bc'. split; [done|].
    apply list_find_Some in Hfind as (_ & _ & Hleast).
    destruct (decide (i ≤ length pre)%nat) as [|Hgt]; [done|].
    exfalso. apply (Hleast (length pre) bc); [|lia|done].
    by rewrite list_lookup_middle.
  - apply list_find_None in Hfind.
    apply Forall_app in Hfind as [_ Hfind].
    by apply Forall_cons in Hfind as [? _].
Qed.

Lemma first_unresolved_first s pre bc post :
  Forall (λ r, is_Some (lookup_ref s r)) pre → lookup_ref s bc = None →
  first_unresolved s (pre ++ bc :: post) = Some (length pre, bc).
Proof.
  intros Hpre Hbc. unfold first_unresolved. apply list_find_Some.
  split; [by rewrite list_lookup_middle|]. split; [done|].
  intros j r Hj Hlt Hr.
  rewrite lookup_app_l in Hj by done.
  eapply Forall_lookup_1 in Hpre; [|done].
  rewrite Hr in Hpre. by destruct Hpre.
Qed.

Lemma create_build_unresolved new_id build s i bc :
  first_unresolved s (components build) = Some (i, bc) →
  create_build new_id build s
  = (inl (strict_error bc),
     logged s (parsed_prefix (take (S i) (components build)))).
Proof. intros Hfirst. by rewrite create_build_run, Hfirst. Qed.

Lemma role_lookup_last s build pre bc post :
  components build = pre ++ bc :: post →
  Forall (λ r, bc_type r ≠ bc_type bc) post →
  role_lookup s build (bc_type bc) = lookup_ref s bc.
Proof.
  intros Hl Hpost. unfold role_lookup. rewrite Hl.
  rewrite filter_app, filter_cons, decide_True by done.
  assert (filter (λ r, bc_type r = bc_type bc) post = []) as ->.
  { clear Hl. induction Hpost as [|r post Hr _ IH]; [done|].
    by rewrite filter_cons, decide_False. }
  by rewrite last_snoc.
Qed.

(** A rule reads nothing past the roles listed for it. *)
Lemma rule_skipped (roles : Roles) est (i : nat) rule needed role :
  rules !! i = Some rule → rule_roles !! i = Some needed →
  role ∈ needed → roles role = None → rule roles est = [].
Proof.
  intros Hrule Hneeded Hin Hnone.
  do 7 (destruct i as [|i];
        [injection Hrule as <-; injection Hneeded as <-;
         repeat (apply elem_of_cons in Hin as [->|Hin]);
         try (by apply elem_of_nil in Hin);
         cbv beta delta [socket_rule ram_rule gpu_rule cooler_rule psu_rule
                          psu_form_rule mobo_form_rule];
         rewrite Hnone; cbn [truthy_str truthy_int truthy_list];
         repeat case_match; reflexivity|]).
  done.
Qed.

(** C6 (amended). A reference that is well formed but has no catalogue
    entry makes build creation fail and store nothing; the error names
    it when it is the first reference that does not resolve.  When all
    identifiers are well formed the checker raises nothing, and a role
    whose last reference is the missing one is absent: every rule that
    reads the role yields nothing. *)
Theorem strict_creation_lenient_check s new_id build pre bc post :
  components build = pre ++ bc :: post →
  well_formed_ref bc → lookup_ref s bc = None →
  (∃ e, eval (create_build new_id build) s = inl e)
  ∧ db_build (exec (create_build new_id build) s) = db_build s
  ∧ (Forall (λ r, is_Some (lookup_ref s r)) pre →
     eval (create_build new_id build) s = inl (not_found (component_id bc)))
  ∧ (well_formed build →
     let roles := role_lookup s build in
     let est := headroom (tdp_total (resolved s build)) in
     eval (compatibility_issues build) s = inr (rule_table roles est)
     ∧ (Forall (λ r, bc_type r ≠ bc_type bc) post →
        roles (bc_type bc) = None
        ∧ ∀ (i : nat) rule needed,
            rules !! i = Some rule → rule_roles !! i = Some needed →
            bc_type bc ∈ needed → rule roles est = [])).
Proof.
  intros Hl [k Hk] Hbc.
  destruct (first_unresolved_exists s pre bc post Hbc) as (i & bc' & Hfirst & _).
  rewrite <- Hl in Hfirst.
  split; [|split; [|split]].
  - unfold eval. rewrite (create_build_unresolved _ _ _ i bc') by done.
    by eexists.
  - unfold exec. by rewrite (create_build_unresolved _ _ _ i bc').
  - intros Hpre. unfold eval.
    rewrite (create_build_unresolved _ _ _ (length pre) bc)
      by (rewrite Hl; by apply first_unresolved_first).
    unfold strict_error. by rewrite Hk.
  - intros Hwf roles est.
    split; [by apply eval_compatibility_issues|].
    intros Hpost.
    assert (Hrole : roles (bc_type bc) = None).
    { unfold roles. by rewrite (role_lookup_last s build pre bc post). }
    split; [done|].
    intros i' rule needed Hrule Hneeded Hin.
    by eapply rule_skipped.
Qed.

(** C7 (amended). The first identifier that does not parse makes the
    wattage estimate, the compatibility check and the validation fail
    with the distinct [Invalid id] error, after lookups for the
    references before it only.  Build creation fails too and stores
    nothing, having looked up no more than those; its error is
    [Invalid id] when every earlier reference resolves, and otherwise
    the not-found error naming the first earlier reference that does
    not. *)
Theorem malformed_reference_is_fatal s new_id build pre bc post :
  components build = pre ++ bc :: post →
  Forall well_formed_ref pre → ObjectId_of_str (component_id bc) = None →
  estimate_wattage build s = (inl invalid_id, logged s (parsed_prefix pre))
  ∧ compatibility_issues build s = (inl invalid_id, logged s (parsed_prefix pre))
  ∧ validate_build build s = (inl invalid_id, logged s (parsed_prefix pre))
  ∧ (∃ e ks, create_build new_id build s = (inl e, logged s ks)
             ∧ ks `prefix_of` parsed_prefix pre
             ∧ db_build (logged s ks) = db_build s)
  ∧ (Forall (λ r, is_Some (lookup_ref s r)) pre →
     create_build new_id build s
     = (inl invalid_id, logged s (parsed_prefix pre)))
  ∧ (∀ i r, first_unresolved s pre = Some (i, r) →
       eval (create_build new_id build) s = inl (not_found (component_id r))
       ∧ db_build (exec (create_build new_id build) s) = db_build s).
Proof.
  intros Hl Hpre Hbc.
  pose proof (not_well_formed_malformed build pre bc post Hl Hbc) as Hwf.
  pose proof (parsed_prefix_malformed pre bc post Hpre Hbc) as Hkeys.
  rewrite <- Hl in Hkeys.
  assert (Hcheck : compatibility_issues build s
                   = (inl invalid_id, logged s (parsed_prefix pre))).
  { by rewrite compatibility_issues_run, decide_False, Hkeys. }
  split; [by rewrite estimate_wattage_run, decide_False, Hkeys|].
  split; [done|].
  split; [unfold validate_build; by rewrite bind_run, Hcheck|].
  assert (Hnone : lookup_ref s bc = None) by by apply lookup_ref_None.
  split; [|split].
  - destruct (first_unresolved_exists s pre bc post Hnone)
      as (i & bc' & Hfirst & _).
    rewrite <- Hl in Hfirst.
    exists (strict_error bc'), (parsed_prefix (take (S i) (components build))).
    split; [by apply create_build_unresolved|].
    split; [|done]. rewrite <- Hkeys. apply parsed_prefix_take.
  - intros Hfound.
    rewrite (create_build_unresolved _ _ _ (length pre) bc)
      by (rewrite Hl; by apply first_unresolved_first).
    unfold strict_error. rewrite Hbc. f_equal. f_equal.
    rewrite Hl.
    replace (pre ++ bc :: post) with ((pre ++ [bc]) ++ post)
      by (by rewrite <- app_assoc).
    rewrite take_app_length' by (rewrite length_app; simpl; lia).
    rewrite parsed_prefix_app by done.
    cbn [parsed_prefix]. by rewrite Hbc, app_nil_r.
  - intros i r Hfirst.
    assert (Hr : well_formed_ref r).
    { unfold first_unresolved in Hfirst.
      apply list_find_Some in Hfirst as (Hi & _ & _).
      by eapply Forall_lookup_1. }
    unfold eval, exec.
    rewrite (create_build_unresolved _ _ _ i r)
      by (rewrite Hl; unfold first_unresolved in *; by apply list_find_app_l).
    cbn [fst snd logged db_build]. split; [|done].
    unfold strict_error. by destruct Hr as [k ->].
Qed.

(** ** What build creation stores *)

(** A creation that succeeds found every reference and no violation. *)
Lemma create_build_success new_id build s created :
  eval (create_build new_id build) s = inr created →
  first_unresolved s (components build) = None
  ∧ created = mkCreated (str_of_ObjectId new_id) (price_sum (resolved s build))
  ∧ db_build (exec (create_build new_id build) s)
    = db_build s ++ [(new_id, stored_document build (price_sum (resolved s build)))].
Proof.
  unfold eval, exec. rewrite create_build_run.
  destruct (first_unresolved s (components build)) as [[i bc]|]; [done|].
  cbv zeta.
  destruct (rule_table _ _); [|done].
  cbn [fst snd db_build logged]. intros [= <-]. done.
Qed.

Lemma resolved_all s l :
  first_unresolved s l = None →
  Forall2 (λ bc doc, lookup_ref s bc = Some doc) l (omap (lookup_ref s) l).
Proof.
  induction l as [|bc l IH]; intros Hnone; [constructor|].
  rewrite first_unresolved_cons in Hnone.
  destruct (decide (lookup_ref s bc = None)) as [|Hsome]; [done|].
  destruct (first_unresolved s l) eqn:Hl; [done|].
  simpl. destruct (lookup_ref s bc) as [doc|] eqn:Hbc; [|done].
  constructor; [done | by apply IH].
Qed.

(** C8. A build creation that succeeds returns and stores, as
    [total_price], the float sum of the catalogue prices of the
    referenced components, one term per reference and nothing for a
    component without a price; the [total_price] the client sent plays
    no part: the same request under any other client value has the same
    outcome and leaves the same store. *)
Theorem total_price_recomputed s new_id build created :
  eval (create_build new_id build) s = inr created →
  let total := price_sum (resolved s build) in
  created_total_price created = total
  ∧ Forall2 (λ bc doc, lookup_ref s bc = Some doc) (components build) (resolved s build)
  ∧ (∃ doc, db_build (exec (create_build new_id build) s)
            = db_build s ++ [(new_id, doc)]
            ∧ total_price doc = Some total)
  ∧ ∀ client_price,
      create_build new_id (with_total_price client_price build) s
      = create_build new_id build s.
Proof.
  intros Hok total.
  apply create_build_success in Hok as (Hnone & -> & Hstore).
  split; [done|]. split; [by apply resolved_all|].
  split; [by eexists|].
  intros client_price. by rewrite !create_build_run.
Qed.

(** C10. Of the document the client sent, a creation that succeeds
    replaces [total_price] and nothing else: title, description,
    creator, anchor flag, references and likes are stored as sent.  So
    a build can be created with any non-negative [likes] and
    [is_anchor] set. *)
Theorem creation_persists_client_fields s new_id :
  (∀ build created,
     eval (create_build new_id build) s = inr created →
     ∃ doc, db_build (exec (create_build new_id build) s)
            = db_build s ++ [(new_id, doc)]
            ∧ title doc = title build
            ∧ description doc = description build
            ∧ creator_id doc = creator_id build
            ∧ is_anchor doc = is_anchor build
            ∧ components doc = components build
            ∧ likes doc = likes build
            ∧ total_price doc = Some (created_total_price created))
  ∧ (∀ n, 0 ≤ n →
     ∃ build created doc,
       likes build = n ∧ is_anchor build = true
       ∧ eval (create_build new_id build) s = inr created
       ∧ db_build (exec (create_build new_id build) s)
         = db_build s ++ [(new_id, doc)]
       ∧ likes doc = n ∧ is_anchor doc = true).
Proof.
  split.
  - intros build created Hok.
    apply create_build_success in Hok as (_ & -> & Hstore).
    eexists. split; [exact Hstore|]. by repeat split.
  - intros n _.
    exists (mkBuild "" None None true [] None n).
    unfold eval, exec. rewrite create_build_run.
    eexists _, _. by repeat split.
Qed.

(** ** References that share a role *)

Lemma tdp_total_app s l1 l2 :
  tdp_total (omap (lookup_ref s) (l1 ++ l2))
  = tdp_total (omap (lookup_ref s) l1) + tdp_total (omap (lookup_ref s) l2).
Proof.
  unfold tdp_total, declared_tdps, sum_Z.
  rewrite !omap_app, foldr_app.
  generalize (omap tdp (omap (lookup_ref s) l2)).
  induction (omap tdp (omap (lookup_ref s) l1)) as [|t ts IH]; intros l; simpl;
    [lia|]. rewrite IH. lia.
Qed.

Lemma tdp_total_singleton s bc :
  tdp_total (omap (lookup_ref s) [bc]) = default 0 (lookup_ref s bc ≫= tdp).
Proof.
  unfold tdp_total, declared_tdps, sum_Z. simpl.
  destruct (lookup_ref s bc) as [doc|]; simpl; [|done].
  destruct (tdp doc); simpl; [lia|done].
Qed.

Lemma tdp_total_each s l :
  tdp_total (omap (lookup_ref s) l)
  = sum_Z (map (λ bc, default 0 (lookup_ref s bc ≫= tdp)) l).
Proof.
  induction l as [|bc l IH]; [done|].
  change (bc :: l) with ([bc] ++ l).
  rewrite tdp_total_app, tdp_total_singleton, IH. reflexivity.
Qed.

Lemma role_lookup_overwritten s build pre bc post role :
  components build = pre ++ bc :: post →
  Exists (λ r, bc_type r = bc_type bc) post →
  role_lookup s build role
  = role_lookup s (with_components (pre ++ post) build) role.
Proof.
  intros Hl Hlater. unfold role_lookup. cbn [with_components components].
  rewrite Hl, !filter_app, filter_cons.
  destruct (decide (bc_type bc = role)) as [<-|]; [|done].
  assert (∃ r rest, filter (λ r, bc_type r = bc_type bc) post = r :: rest)
    as (r & rest & ->).
  { clear Hl. induction Hlater as [r post Hr|r post _ IH].
    - rewrite filter_cons, decide_True by done. eauto.
    - rewrite filter_cons. destruct (decide _); eauto. }
  by rewrite !last_app_cons, !last_cons_cons.
Qed.

(** C9 (amended). With several references of one role, the checker's
    mapping holds the component of the last of them, and its seven
    rules read that mapping and the estimate, nothing else: an earlier
    reference of the role can be dropped without changing the mapping
    or what any rule yields for a given estimate.  The estimator sums
    the tdp of every reference, earlier ones of a role included, so such
    a reference still reaches the PSU sizing rule through the estimate,
    and the estimate counts components the checker's mapping does not
    hold. *)
Theorem duplicate_roles s build :
  well_formed build →
  let est := headroom (tdp_total (resolved s build)) in
  eval (compatibility_issues build) s = inr (rule_table (role_lookup s build) est)
  ∧ eval (estimate_wattage build) s = inr est
  ∧ (∀ role bc,
       last (filter (λ r, bc_type r = role) (components build)) = Some bc →
       role_lookup s build role = lookup_ref s bc)
  ∧ tdp_total (resolved s build)
    = sum_Z (map (λ bc, default 0 (lookup_ref s bc ≫= tdp)) (components build))
  ∧ ∀ pre bc post,
      components build = pre ++ bc :: post →
      Exists (λ r, bc_type r = bc_type bc) post →
      let build' := with_components (pre ++ post) build in
      (∀ role, role_lookup s build role = role_lookup s build' role)
      ∧ (∀ w, rule_table (role_lookup s build) w
              = rule_table (role_lookup s build') w)
      ∧ tdp_total (resolved s build)
        = tdp_total (resolved s build') + default 0 (lookup_ref s bc ≫= tdp).
Proof.
  intros Hwf est.
  split; [by apply eval_compatibility_issues|].
  split; [by apply eval_estimate_wattage|].
  split; [intros role bc Hlast; unfold role_lookup; by rewrite Hlast|].
  split; [apply tdp_total_each|].
  intros pre bc post Hl Hlater build'.
  assert (Hroles : ∀ role, role_lookup s build role = role_lookup s build' role)
    by (intros role; by eapply role_lookup_overwritten).
  split; [done|]. split.
  - intros w. rewrite !rule_table_unfold.
    unfold socket_rule, ram_rule, gpu_rule, cooler_rule, psu_rule,
      psu_form_rule, mobo_form_rule.
    by rewrite !Hroles.
  - unfold resolved. cbn [build' with_components components]. rewrite Hl.
    change (bc :: post) with ([bc] ++ post).
    rewrite !tdp_total_app, tdp_total_singleton. lia.
Qed.

End Properties.

(** * The properties on the example store *)

(** The rounding model against the hardware product, up to 2^62. *)
Example int_mul_1_3_hardware :
  forallb (λ n, bool_decide (prim_int_mul_1_3 n = Some (int_mul_1_3 n)))
    [0; 1; 2; 3; 7; 10; 250; 400; 2 ^ 48 - 1; 2 ^ 49 + 12345; 2 ^ 52;
     2 ^ 52 + 1; 2 ^ 53 + 1; 2 ^ 60 + 12345; 2 ^ 62 - 1] = true.
Proof. vm_compute. reflexivity. Qed.

(** Beyond 2^48 the double product and the exact one part ways. *)
Example int_mul_1_3_inexact :
  int_mul_1_3 (2 ^ 52) = 5854679515581645
  ∧ Z.quot (13 * 2 ^ 52) 10 = 5854679515581644.
Proof. vm_compute. done. Qed.

Ltac solve_well_formed :=
  unfold well_formed;
  repeat first [ apply Forall_nil_2
               | apply Forall_cons_2; [eexists; vm_compute; reflexivity|] ].

(** A cpu of 100 W and a gpu of 150 W: the estimate is 325. *)
Lemma estimate_wattage_headroom_witness :
  well_formed build_tdp_100_150
  ∧ declared_tdps (resolved store build_tdp_100_150) = [100; 150]
  ∧ eval (estimate_wattage build_tdp_100_150) store = inr 325.
Proof.
  assert (Hwf : well_formed build_tdp_100_150) by solve_well_formed.
  assert (Htdps : declared_tdps (resolved store build_tdp_100_150) = [100; 150])
    by (vm_compute; reflexivity).
  split; [exact Hwf|]. split; [exact Htdps|].
  pose proof (estimate_wattage_headroom store build_tdp_100_150 Hwf) as H.
  cbv zeta in H. destruct H as (_ & _ & _ & H). exact (H Htdps).
Defined.

(** An AM5 cpu on an LGA1700 board with 400 W of tdp behind a 500 W
    psu: both messages, the socket one first. *)
Lemma all_rules_evaluated_in_order_witness :
  well_formed build_socket_and_psu
  ∧ ∃ between after,
      eval (compatibility_issues build_socket_and_psu) store
      = inr (socket_message "AM5" "LGA1700"
             :: between ++ psu_message 520 500 :: after).
Proof.
  assert (Hwf : well_formed build_socket_and_psu) by solve_well_formed.
  split; [exact Hwf|].
  pose proof (all_rules_evaluated_in_order store build_socket_and_psu Hwf) as H.
  cbv zeta in H. destruct H as (_ & _ & H).
  apply (H cpu_am5 mobo_lga psu_500 "AM5" "LGA1700" 500);
    try (vm_compute; reflexivity); try (vm_compute; discriminate).
Defined.

(** C2 as stated fails: an AM5 cpu on an LGA1700 board breaks the socket
    rule, a psu that declares 0 W under an estimate of 520 W breaks the
    PSU sizing rule, and the checker reports the socket message alone. *)
Lemma socket_and_psu_violated_one_reported :
  (role_lookup store build_socket_and_psu_0 "cpu" ≫= socket) = Some "AM5"
  ∧ (role_lookup store build_socket_and_psu_0 "motherboard" ≫= socket)
    = Some "LGA1700"
  ∧ lower "AM5" ≠ lower "LGA1700"
  ∧ (role_lookup store build_socket_and_psu_0 "psu" ≫= psu_wattage) = Some 0
  ∧ eval (estimate_wattage build_socket_and_psu_0) store = inr 520
  ∧ 520 ≠ 0 ∧ 0 < 520
  ∧ eval (compatibility_issues build_socket_and_psu_0) store
    = inr [socket_message "AM5" "LGA1700"]
  ∧ psu_messages [socket_message "AM5" "LGA1700"] = [].
Proof. repeat split; try (vm_compute; reflexivity); vm_compute; discriminate. Qed.

(** C3 as stated fails: a cpu whose socket is the empty string and a
    board with socket LGA1700 both declare a socket, the two differ, and
    the checker reports nothing. *)
Lemma socket_rule_silent_on_empty_socket :
  (role_lookup store build_empty_socket "cpu" ≫= socket) = Some ""
  ∧ (role_lookup store build_empty_socket "motherboard" ≫= socket) = Some "LGA1700"
  ∧ lower "" ≠ lower "LGA1700"
  ∧ eval (compatibility_issues build_empty_socket) store = inr [].
Proof. repeat split; try (vm_compute; reflexivity). vm_compute. discriminate. Qed.

(** AM5 against LGA1700 gives the one message; AM5 against am5 gives
    none. *)
Lemma socket_rule_fires_iff_witness :
  well_formed build_socket_mismatch
  ∧ (∃ issues,
       eval (compatibility_issues build_socket_mismatch) store = inr issues
       ∧ socket_messages issues = [socket_message "AM5" "LGA1700"])
  ∧ well_formed build_same_socket
  ∧ (∃ issues,
       eval (compatibility_issues build_same_socket) store = inr issues
       ∧ socket_messages issues = []).
Proof.
  assert (Hwf : well_formed build_socket_mismatch) by solve_well_formed.
  assert (Hwf' : well_formed build_same_socket) by solve_well_formed.
  split; [exact Hwf|]. split; [|split; [exact Hwf'|]].
  - pose proof (socket_rule_fires_iff store build_socket_mismatch Hwf) as H.
    cbv zeta in H. destruct H as (issues & Heval & _ & Hfires & _).
    exists issues. split; [exact Heval|].
    apply (Hfires "AM5" "LGA1700");
      try (vm_compute; reflexivity); vm_compute; discriminate.
  - pose proof (socket_rule_fires_iff store build_same_socket Hwf') as H.
    cbv zeta in H. destruct H as (issues & Heval & _ & _ & _ & Hascii).
    exists issues. split; [exact Heval|].
    apply (Hascii "AM5" "am5"); try (vm_compute; reflexivity).
    right; right. vm_compute. reflexivity.
Defined.

(** C4 as stated fails: a gpu of 300 mm in a case that declares a
    maximum of 0 mm exceeds it, and the checker reports nothing. *)
Lemma gpu_rule_silent_on_zero_clearance :
  (role_lookup store build_zero_clearance "gpu" ≫= gpu_length_mm) = Some 300
  ∧ (role_lookup store build_zero_clearance "case" ≫= max_gpu_length_mm) = Some 0
  ∧ 0 ≤ 300 ∧ 0 ≤ 0 ∧ 0 < 300
  ∧ eval (compatibility_issues build_zero_clearance) store = inr [].
Proof. repeat split; try (vm_compute; reflexivity); vm_compute; discriminate. Qed.

(** 350 mm in a 320 mm case is reported, 300 mm is not. *)
Lemma gpu_rule_fires_iff_witness :
  well_formed build_gpu_350
  ∧ (∃ issues,
       eval (compatibility_issues build_gpu_350) store = inr issues
       ∧ gpu_messages issues = [gpu_message])
  ∧ well_formed build_gpu_300
  ∧ (∃ issues,
       eval (compatibility_issues build_gpu_300) store = inr issues
       ∧ gpu_messages issues ≠ [gpu_message]).
Proof.
  assert (Hwf : well_formed build_gpu_350) by solve_well_formed.
  assert (Hwf' : well_formed build_gpu_300) by solve_well_formed.
  split; [exact Hwf|]. split; [|split; [exact Hwf'|]].
  - pose proof (gpu_rule_fires_iff store build_gpu_350 Hwf) as H.
    cbv zeta in H. destruct H as (issues & Heval & Hiff & _).
    exists issues. split; [exact Heval|].
    apply Hiff. exists 350, 320.
    repeat split; try (vm_compute; reflexivity); vm_compute; discriminate.
  - pose proof (gpu_rule_fires_iff store build_gpu_300 Hwf') as H.
    cbv zeta in H. destruct H as (issues & Heval & Hiff & _).
    exists issues. split; [exact Heval|].
    intros Hfired. apply Hiff in Hfired as (g & cap & Hg & Hcap & _ & _ & Hlt).
    vm_compute in Hg, Hcap.
    injection Hg as <-. injection Hcap as <-. vm_compute in Hlt. discriminate.
Defined.

(** C5 as stated fails: a psu that declares 0 W under an estimate of
    520 W is below it, and the checker reports nothing. *)
Lemma psu_rule_silent_on_zero_wattage :
  (role_lookup store build_psu_0 "psu" ≫= psu_wattage) = Some 0
  ∧ eval (estimate_wattage build_psu_0) store = inr 520
  ∧ 520 ≠ 0 ∧ 0 < 520
  ∧ eval (compatibility_issues build_psu_0) store = inr [].
Proof. repeat split; try (vm_compute; reflexivity); vm_compute; discriminate. Qed.

(** 400 W of tdp: a 500 W psu is reported with 520 and 500 in the
    message, a 600 W psu is not. *)
Lemma psu_rule_fires_iff_witness :
  well_formed build_psu_500
  ∧ (∃ issues,
       eval (compatibility_issues build_psu_500) store = inr issues
       ∧ psu_messages issues
         = ["PSU wattage too low. Estimated 520W, PSU is 500W"]
       ∧ contains "PSU wattage too low. Estimated 520W, PSU is 500W" "520"
       ∧ contains "PSU wattage too low. Estimated 520W, PSU is 500W" "500")
  ∧ well_formed build_psu_600
  ∧ (∃ issues,
       eval (compatibility_issues build_psu_600) store = inr issues
       ∧ psu_messages issues = []).
Proof.
  assert (Hwf : well_formed build_psu_500) by solve_well_formed.
  assert (Hwf' : well_formed build_psu_600) by solve_well_formed.
  split; [exact Hwf|]. split; [|split; [exact Hwf'|]].
  - pose proof (psu_rule_fires_iff store build_psu_500 Hwf) as H.
    cbv zeta in H. destruct H as (issues & est & Heval & Hest & _ & Hfires).
    exists issues. split; [exact Heval|].
    vm_compute in Hest. injection Hest as <-.
    apply (Hfires 500); try (vm_compute; reflexivity); vm_compute; discriminate.
  - pose proof (psu_rule_fires_iff store build_psu_600 Hwf') as H.
    cbv zeta in H. destruct H as (issues & est & Heval & Hest & Hiff & _).
    exists issues. split; [exact Heval|].
    vm_compute in Hest. injection Hest as <-.
    destruct (psu_messages issues) as [|msg rest]; [reflexivity|].
    exfalso. destruct (proj1 Hiff) as (w & Hw & _ & _ & Hlt); [discriminate|].
    vm_compute in Hw. injection Hw as <-. vm_compute in Hlt. discriminate.
Defined.

(** C6 as stated fails twice.  Behind a malformed identifier, a missing
    one is not named by the error of build creation, and the checker
    raises.  Ahead of a cpu that resolves, a missing cpu does not make
    the role absent: the socket rule fires. *)
Lemma strict_and_lenient_corner_cases :
  (well_formed_ref (ref id_missing "gpu")
   ∧ lookup_ref store (ref id_missing "gpu") = None
   ∧ eval (create_build id_fresh build_malformed_then_missing) store
     = inl invalid_id
   ∧ invalid_id ≠ not_found id_missing
   ∧ eval (compatibility_issues build_malformed_then_missing) store
     = inl invalid_id)
  ∧ (well_formed_ref (ref id_missing "cpu")
     ∧ lookup_ref store (ref id_missing "cpu") = None
     ∧ role_lookup store build_missing_then_found "cpu" = Some cpu_am5
     ∧ eval (compatibility_issues build_missing_then_found) store
       = inr [socket_message "AM5" "LGA1700"]).
Proof.
  repeat split; try (vm_compute; reflexivity); try (vm_compute; discriminate);
    eexists; vm_compute; reflexivity.
Qed.

(** A missing gpu between a cpu and a case: creation is refused naming
    it, nothing is stored, and the checker goes on without the gpu. *)
Lemma strict_creation_lenient_check_witness :
  components build_missing_gpu
  = [ref id_cpu "cpu"] ++ ref id_missing "gpu" :: [ref id_case_320 "case"]
  ∧ well_formed_ref (ref id_missing "gpu")
  ∧ lookup_ref store (ref id_missing "gpu") = None
  ∧ eval (create_build id_fresh build_missing_gpu) store
    = inl (not_found id_missing)
  ∧ db_build (exec (create_build id_fresh build_missing_gpu) store)
    = db_build store
  ∧ role_lookup store build_missing_gpu "gpu" = None
  ∧ gpu_rule (role_lookup store build_missing_gpu)
      (headroom (tdp_total (resolved store build_missing_gpu))) = []
  ∧ ∃ issues, eval (compatibility_issues build_missing_gpu) store = inr issues.
Proof.
  assert (Hl : components build_missing_gpu
               = [ref id_cpu "cpu"] ++ ref id_missing "gpu"
                 :: [ref id_case_320 "case"]) by reflexivity.
  assert (Hbc : well_formed_ref (ref id_missing "gpu"))
    by (eexists; vm_compute; reflexivity).
  assert (Hnone : lookup_ref store (ref id_missing "gpu") = None)
    by (vm_compute; reflexivity).
  assert (Hwf : well_formed build_missing_gpu) by solve_well_formed.
  destruct (strict_creation_lenient_check store id_fresh build_missing_gpu
              _ _ _ Hl Hbc Hnone) as (_ & Hstore & Hnamed & Hlenient).
  destruct (Hlenient Hwf) as (Hcheck & Habsent).
  destruct Habsent as (Hrole & Hskip).
  { repeat constructor; vm_compute; discriminate. }
  split; [exact Hl|]. split; [exact Hbc|]. split; [exact Hnone|].
  split.
  { apply Hnamed. repeat constructor. eexists. vm_compute. reflexivity. }
  split; [exact Hstore|]. split; [exact Hrole|].
  split.
  { apply (Hskip 2%nat gpu_rule ["gpu"; "case"]);
      [reflexivity | reflexivity | by constructor]. }
  eexists. exact Hcheck.
Defined.

(** C7 as stated fails: with a missing reference ahead of the malformed
    one, build creation raises the not-found error of the former. *)
Lemma missing_reference_preempts_malformed :
  ObjectId_of_str id_malformed = None
  ∧ eval (create_build id_fresh build_missing_then_malformed) store
    = inl (not_found id_missing)
  ∧ not_found id_missing ≠ invalid_id.
Proof.
  repeat split; try (vm_compute; reflexivity). vm_compute. discriminate.
Qed.

(** A malformed gpu identifier after a cpu: the three handlers raise
    [Invalid id] having looked up the cpu only. *)
Lemma malformed_reference_is_fatal_witness :
  components build_malformed_gpu
  = [ref id_cpu "cpu"] ++ ref id_malformed "gpu" :: [ref id_case_320 "case"]
  ∧ Forall well_formed_ref [ref id_cpu "cpu"]
  ∧ ObjectId_of_str (component_id (ref id_malformed "gpu")) = None
  ∧ estimate_wattage build_malformed_gpu store
    = (inl invalid_id, mkDb catalogue [] [id_cpu])
  ∧ compatibility_issues build_malformed_gpu store
    = (inl invalid_id, mkDb catalogue [] [id_cpu])
  ∧ create_build id_fresh build_malformed_gpu store
    = (inl invalid_id, mkDb catalogue [] [id_cpu]).
Proof.
  assert (Hl : components build_malformed_gpu
               = [ref id_cpu "cpu"] ++ ref id_malformed "gpu"
                 :: [ref id_case_320 "case"]) by reflexivity.
  assert (Hpre : Forall well_formed_ref [ref id_cpu "cpu"])
    by (repeat constructor; eexists; vm_compute; reflexivity).
  assert (Hbc : ObjectId_of_str (component_id (ref id_malformed "gpu")) = None)
    by (vm_compute; reflexivity).
  destruct (malformed_reference_is_fatal store id_fresh build_malformed_gpu
              _ _ _ Hl Hpre Hbc) as (Hest & Hcheck & _ & _ & Hcreate & _).
  split; [exact Hl|]. split; [exact Hpre|]. split; [exact Hbc|].
  split; [exact Hest|]. split; [exact Hcheck|].
  apply Hcreate. repeat constructor. eexists. vm_compute. reflexivity.
Defined.

(** 299.5 + 180.25 for the two priced components; a client price of 1.0
    changes nothing. *)
Lemma total_price_recomputed_witness :
  eval (create_build id_fresh build_priced) store
  = inr (mkCreated id_fresh 479.75%float)
  ∧ price_sum (resolved store build_priced) = 479.75%float
  ∧ create_build id_fresh (with_total_price (Some 1%float) build_priced) store
    = create_build id_fresh build_priced store.
Proof.
  assert (Hok : eval (create_build id_fresh build_priced) store
                = inr (mkCreated id_fresh 479.75%float))
    by (vm_compute; reflexivity).
  pose proof (total_price_recomputed store id_fresh build_priced _ Hok) as H.
  cbv zeta in H. destruct H as (Htotal & _ & _ & Hclient).
  split; [exact Hok|]. split; [symmetry; exact Htotal|].
  apply Hclient.
Defined.

(** C9 as stated fails: the first of two cpus is overwritten in the
    mapping, yet with it the PSU rule fires and without it the checker
    reports nothing. *)
Lemma overwritten_reference_reaches_psu_rule :
  role_lookup store build_two_cpus "cpu" = Some cpu_am5
  ∧ with_components [ref id_cpu "cpu"; ref id_psu_500 "psu"] build_two_cpus
    = build_one_cpu
  ∧ (∀ role, role_lookup store build_one_cpu role
             = role_lookup store build_two_cpus role)
  ∧ eval (compatibility_issues build_two_cpus) store = inr [psu_message 520 500]
  ∧ eval (compatibility_issues build_one_cpu) store = inr [].
Proof.
  split; [vm_compute; reflexivity|]. split; [reflexivity|].
  split; [|split; vm_compute; reflexivity].
  intros role. unfold role_lookup.
  change (components build_one_cpu)
    with ([ref id_cpu "cpu"; ref id_psu_500 "psu"]).
  change (components build_two_cpus)
    with ([ref id_cpu_hot "cpu"; ref id_cpu "cpu"; ref id_psu_500 "psu"]).
  rewrite !filter_cons, !filter_nil. cbn [bc_type ref].
  repeat case_decide; simplify_eq; reflexivity.
Qed.

(** Two cpus and a psu: the checker holds one cpu, the estimate counts
    both. *)
Lemma duplicate_roles_witness :
  well_formed build_two_cpus
  ∧ components build_two_cpus
    = [] ++ ref id_cpu_hot "cpu" :: [ref id_cpu "cpu"; ref id_psu_500 "psu"]
  ∧ Exists (λ r, bc_type r = "cpu") [ref id_cpu "cpu"; ref id_psu_500 "psu"]
  ∧ eval (estimate_wattage build_two_cpus) store = inr 520
  ∧ checker_view store build_two_cpus = [cpu_am5; psu_500]
  ∧ resolved store build_two_cpus = [cpu_hot; cpu_am5; psu_500]
  ∧ (∀ role, role_lookup store build_two_cpus role
             = role_lookup store build_one_cpu role)
  ∧ tdp_total (resolved store build_two_cpus)
    = tdp_total (resolved store build_one_cpu) + 300.
Proof.
  assert (Hwf : well_formed build_two_cpus) by solve_well_formed.
  assert (Hl : components build_two_cpus
               = [] ++ ref id_cpu_hot "cpu"
                 :: [ref id_cpu "cpu"; ref id_psu_500 "psu"]) by reflexivity.
  assert (Hlater : Exists (λ r, bc_type r = bc_type (ref id_cpu_hot "cpu"))
                     [ref id_cpu "cpu"; ref id_psu_500 "psu"])
    by (by apply Exists_cons_hd).
  pose proof (duplicate_roles store build_two_cpus Hwf) as H.
  cbv zeta in H. destruct H as (_ & Hest & _ & _ & Hdrop).
  destruct (Hdrop _ _ _ Hl Hlater) as (Hroles & _ & Htdp).
  split; [exact Hwf|]. split; [exact Hl|]. split; [exact Hlater|].
  split; [exact Hest|].
  split; [vm_compute; reflexivity|]. split; [vm_compute; reflexivity|].
  split; [exact Hroles | exact Htdp].
Defined.

(** A client build with [is_anchor] set, 4200 likes and a price of 1.0
    is stored with its flag and likes, and the recomputed price. *)
Lemma creation_persists_client_fields_witness :
  eval (create_build id_fresh build_showcase) store
  = inr (mkCreated id_fresh 299.5%float)
  ∧ is_anchor build_showcase = true ∧ likes build_showcase = 4200
  ∧ total_price build_showcase = Some 1%float
  ∧ ∃ doc, db_build (exec (create_build id_fresh build_showcase) store)
           = db_build store ++ [(id_fresh, doc)]
           ∧ is_anchor doc = true ∧ likes doc = 4200
           ∧ total_price doc = Some 299.5%float.
Proof.
  assert (Hok : eval (create_build id_fresh build_showcase) store
                = inr (mkCreated id_fresh 299.5%float))
    by (vm_compute; reflexivity).
  destruct (proj1 (creation_persists_client_fields store id_fresh)
              build_showcase _ Hok)
    as (doc & Hstore & _ & _ & _ & Hanchor & _ & Hlikes & Hprice).
  split; [exact Hok|]. repeat (split; [reflexivity|]).
  exists doc. split; [exact Hstore|]. split; [exact Hanchor|].
  split; [exact Hlikes | exact Hprice].
Defined.

(** * Further properties of the handlers *)

Section Handler_properties.
Context {ObjectId : Type} `{!Bson ObjectId} {unicode : Unicode}.
Implicit Types (s : Db) (build : Build) (bc : BuildComponent).
Implicit Types (l : list BuildComponent).

(** ** Validation *)

Lemma validate_build_run build s :
  validate_build build s
  = if decide (well_formed build)
    then (inr (rule_table (role_lookup s build)
                 (headroom (tdp_total (resolved s build))),
               headroom (tdp_total (resolved s build))),
          logged s (parsed_prefix (components build)
                    ++ parsed_prefix (components build)
                    ++ parsed_prefix (components build)))
    else (inl invalid_id, logged s (parsed_prefix (components build))).
Proof.
  unfold validate_build. rewrite bind_run, compatibility_issues_run.
  destruct (decide (well_formed build)) as [Hwf|Hwf]; [|done].
  rewrite bind_run, estimate_wattage_run, decide_True by done.
  unfold ret. by rewrite logged_app, <- app_assoc.
Qed.

(** X1. Validation only reads: it leaves the catalogue and the builds as
    they are, answers with the issues and the estimate whenever the
    identifiers parse, whatever the catalogue lacks, and raises
    [Invalid id] (never a not-found error) otherwise. *)
Theorem validate_build_reads_only build s :
  db_component (exec (validate_build build) s) = db_component s
  ∧ db_build (exec (validate_build build) s) = db_build s
  ∧ (well_formed build →
     eval (validate_build build) s
     = inr (rule_table (role_lookup s build)
              (headroom (tdp_total (resolved s build))),
            headroom (tdp_total (resolved s build))))
  ∧ (¬ well_formed build → eval (validate_build build) s = inl invalid_id).
Proof.
  unfold eval, exec. rewrite validate_build_run.
  destruct (decide (well_formed build)); repeat split; done.
Qed.

(** ** Creation against validation *)

Lemma first_unresolved_None s l :
  first_unresolved s l = None ↔ Forall (λ bc, is_Some (lookup_ref s bc)) l.
Proof.
  unfold first_unresolved. rewrite list_find_None.
  apply Forall_proper; [|done]. intros bc.
  destruct (lookup_ref s bc); split; intros H; try done; by destruct H.
Qed.

(** X2. A build is created exactly when all its references resolve and
    validation reports nothing; when validation reports issues, creation
    raises 400 with those issues as detail and stores nothing. *)
Theorem create_build_iff_validation s new_id build :
  ((∃ created, eval (create_build new_id build) s = inr created)
   ↔ Forall (λ bc, is_Some (lookup_ref s bc)) (components build)
     ∧ ∃ watts, eval (validate_build build) s = inr ([], watts))
  ∧ (∀ issues watts,
       Forall (λ bc, is_Some (lookup_ref s bc)) (components build) →
       eval (validate_build build) s = inr (issues, watts) →
       issues ≠ [] →
       eval (create_build new_id build) s
       = inl (HTTPException 400 (Errors issues))
       ∧ db_build (exec (create_build new_id build) s) = db_build s).
Proof.
  unfold eval, exec. rewrite create_build_run, validate_build_run.
  destruct (first_unresolved s (components build)) as [[i bc]|] eqn:Hfirst.
  - assert (Hnot : ¬ Forall (λ bc, is_Some (lookup_ref s bc)) (components build)).
    { intros Hall. apply first_unresolved_None in Hall. congruence. }
    split; [|by intros].
    split; [intros [created Hc]; done | intros [Hall _]; done].
  - rewrite decide_True by (by eapply first_unresolved_None_well_formed).
    apply first_unresolved_None in Hfirst. cbv zeta.
    destruct (rule_table _ _) as [|problem problems] eqn:Htable; cbn [fst snd].
    + split; [|intros issues watts _ [= <- <-]; done].
      split; [intros _; split; [done|by eexists] | by eexists].
    + split.
      * split; [intros [created Hc]; done | intros [_ [watts Hw]]; done].
      * intros issues watts _ [= <- <-] _. done.
Qed.

Lemma create_build_store_after s new_id build :
  db_component (exec (create_build new_id build) s) = db_component s
  ∧ match eval (create_build new_id build) s with
    | inr created =>
        db_build (exec (create_build new_id build) s)
        = db_build s ++ [(new_id, stored_document build (created_total_price created))]
    | inl _ => db_build (exec (create_build new_id build) s) = db_build s
    end.
Proof.
  unfold eval, exec. rewrite create_build_run.
  destruct (first_unresolved s (components build)) as [[i bc]|]; [done|].
  cbv zeta. by destruct (rule_table _ _).
Qed.

(** X3. Creation appends at most one build and changes nothing else: the
    catalogue and the builds already stored are as before, and the new
    document is there exactly when creation succeeds. *)
Theorem create_build_frame s new_id build :
  db_component (exec (create_build new_id build) s) = db_component s
  ∧ match eval (create_build new_id build) s with
    | inr created =>
        db_build (exec (create_build new_id build) s)
        = db_build s ++ [(new_id, stored_document build (created_total_price created))]
    | inl _ => db_build (exec (create_build new_id build) s) = db_build s
    end.
Proof. exact (create_build_store_after s new_id build). Qed.

(** ** Order of the references *)

Lemma sum_Z_Permutation (xs ys : list Z) : xs ≡ₚ ys → sum_Z xs = sum_Z ys.
Proof.
  induction 1 as [|x xs ys _ IH|x y xs|xs ys zs _ IH1 _ IH2];
    unfold sum_Z in *; simpl; lia.
Qed.

Lemma tdp_total_Permutation s l l' :
  l ≡ₚ l' → tdp_total (omap (lookup_ref s) l) = tdp_total (omap (lookup_ref s) l').
Proof.
  intros Hperm. unfold tdp_total, declared_tdps.
  apply sum_Z_Permutation. by rewrite Hperm.
Qed.

Lemma well_formed_Permutation build build' :
  components build ≡ₚ components build' →
  well_formed build ↔ well_formed build'.
Proof. intros Hperm. unfold well_formed. by rewrite Hperm. Qed.

(** X4. The estimate does not depend on the order of the references. *)
Theorem estimate_wattage_order_irrelevant s build build' :
  components build ≡ₚ components build' →
  eval (estimate_wattage build) s = eval (estimate_wattage build') s.
Proof.
  intros Hperm. unfold eval. rewrite !estimate_wattage_run.
  pose proof (well_formed_Permutation build build' Hperm) as Hwf.
  unfold resolved. rewrite (tdp_total_Permutation s _ _ Hperm).
  destruct (decide (well_formed build)), (decide (well_formed build'));
    cbn [fst]; tauto.
Qed.

Lemma filter_role_unique l role :
  NoDup (bc_type <$> l) →
  filter (λ bc, bc_type bc = role) l = []
  ∨ ∃ bc, filter (λ bc, bc_type bc = role) l = [bc].
Proof.
  induction l as [|bc l IH]; intros Hnodup; [by left|].
  rewrite fmap_cons in Hnodup. apply NoDup_cons in Hnodup as [Hnotin Hnodup].
  rewrite filter_cons. destruct (decide (bc_type bc = role)) as [<-|Hne].
  - right. exists bc. f_equal.
    destruct (IH Hnodup) as [Hnil|[bc' Hone]]; [done|].
    exfalso. apply Hnotin.
    assert (Hin : bc' ∈ filter (λ r, bc_type r = bc_type bc) l)
      by (rewrite Hone; constructor).
    apply list_elem_of_filter in Hin as [<- Hin].
    by apply list_elem_of_fmap_2.
  - by apply IH.
Qed.

Lemma role_lookup_Permutation s build build' role :
  NoDup (bc_type <$> components build) →
  components build ≡ₚ components build' →
  role_lookup s build role = role_lookup s build' role.
Proof.
  intros Hnodup Hperm. unfold role_lookup.
  assert (Hnodup' : NoDup (bc_type <$> components build'))
    by (by rewrite <- Hperm).
  assert (Hfilter : filter (λ bc, bc_type bc = role) (components build)
                    ≡ₚ filter (λ bc, bc_type bc = role) (components build'))
    by (by rewrite Hperm).
  destruct (filter_role_unique _ role Hnodup) as [Hf|[bc Hf]];
  destruct (filter_role_unique _ role Hnodup') as [Hf'|[bc' Hf']];
    rewrite Hf, Hf' in *; try done.
  - by apply Permutation_nil_cons in Hfilter.
  - symmetry in Hfilter. by apply Permutation_nil_cons in Hfilter.
  - apply Permutation_singleton_inj in Hfilter as ->. done.
Qed.

(** X5. With one reference per role, the checker's answer does not depend
    on the order of the references either. *)
Theorem compatibility_issues_order_irrelevant s build build' :
  NoDup (bc_type <$> components build) →
  components build ≡ₚ components build' →
  eval (compatibility_issues build) s = eval (compatibility_issues build') s.
Proof.
  intros Hnodup Hperm. unfold eval. rewrite !compatibility_issues_run.
  pose proof (well_formed_Permutation build build' Hperm) as Hwf.
  destruct (decide (well_formed build)), (decide (well_formed build'));
    cbn [fst]; try tauto.
  f_equal. unfold resolved. rewrite (tdp_total_Permutation s _ _ Hperm).
  rewrite !rule_table_unfold.
  unfold socket_rule, ram_rule, gpu_rule, cooler_rule, psu_rule,
    psu_form_rule, mobo_form_rule.
  by rewrite !(role_lookup_Permutation s build build' _ Hnodup Hperm).
Qed.

(** ** How much the checker can say *)

Lemma messages_distinct c m r m' est w :
  NoDup [socket_message c m; ram_message r m'; gpu_message; cooler_message;
         psu_message est w; psu_form_message; mobo_form_message].
Proof.
  unfold socket_message, ram_message, psu_message.
  repeat (apply NoDup_cons; split;
          [rewrite ?elem_of_cons, elem_of_nil; intros Hin;
           repeat (destruct Hin as [Hin|Hin]; [discriminate Hin|]); done|]).
  apply NoDup_nil. done.
Qed.

(** X6. The checker answers with at most seven messages, no two of them
    the same. *)
Theorem compatibility_issues_bounded s build :
  well_formed build →
  ∃ issues, eval (compatibility_issues build) s = inr issues
            ∧ (length issues ≤ 7)%nat ∧ NoDup issues.
Proof.
  intros Hwf. eexists. split; [by apply eval_compatibility_issues|].
  set (roles := role_lookup s build). set (est := headroom _).
  rewrite rule_table_unfold.
  assert (∃ c m, socket_rule roles est `sublist_of` [socket_message c m])
    as (c & m & H1).
  { destruct (socket_rule_cases roles est) as [->|(c & m & ->)].
    - exists "", "". apply sublist_nil_l.
    - by exists c, m. }
  assert (∃ r m', ram_rule roles est `sublist_of` [ram_message r m'])
    as (r & m' & H2).
  { destruct (ram_rule_cases roles est) as [->|(r & m' & ->)].
    - exists "", "". apply sublist_nil_l.
    - by exists r, m'. }
  assert (gpu_rule roles est `sublist_of` [gpu_message]) as H3
    by (destruct (gpu_rule_cases roles est) as [-> | ->];
        [apply sublist_nil_l | done]).
  assert (cooler_rule roles est `sublist_of` [cooler_message]) as H4
    by (destruct (cooler_rule_cases roles est) as [-> | ->];
        [apply sublist_nil_l | done]).
  assert (∃ w, psu_rule roles est `sublist_of` [psu_message est w])
    as (w & H5).
  { destruct (psu_rule_cases roles est) as [->|(w & ->)].
    - exists 0. apply sublist_nil_l.
    - by exists w. }
  assert (psu_form_rule roles est `sublist_of` [psu_form_message]) as H6
    by (destruct (psu_form_rule_cases roles est) as [-> | ->];
        [apply sublist_nil_l | done]).
  assert (mobo_form_rule roles est `sublist_of` [mobo_form_message]) as H7
    by (destruct (mobo_form_rule_cases roles est) as [-> | ->];
        [apply sublist_nil_l | done]).
  pose proof (sublist_app _ _ _ _ H1
               (sublist_app _ _ _ _ H2
                 (sublist_app _ _ _ _ H3
                   (sublist_app _ _ _ _ H4
                     (sublist_app _ _ _ _ H5
                       (sublist_app _ _ _ _ H6 H7)))))) as Hsub.
  split.
  - apply sublist_length in Hsub. exact Hsub.
  - exact (sublist_NoDup _ _ (messages_distinct c m r m' est w) Hsub).
Qed.

(** X7. A build the checker accepts has a psu that covers the estimate:
    a declared wattage above zero is at least the estimate, which for
    non-negative tdps totalling less than 2^48 is 13/10 of the total,
    rounded down, and so at least the total. *)
Theorem accepted_psu_covers_estimate s build w :
  well_formed build →
  eval (compatibility_issues build) s = inr [] →
  (role_lookup s build "psu" ≫= psu_wattage) = Some w → 0 < w →
  let total := tdp_total (resolved s build) in
  ∃ est, eval (estimate_wattage build) s = inr est ∧ est ≤ w
         ∧ (0 ≤ total < 2 ^ 48 → est = 13 * total / 10 ∧ total ≤ est).
Proof.
  intros Hwf Hok Hw Hpos total.
  rewrite eval_compatibility_issues in Hok by done.
  injection Hok as Hok. rewrite rule_table_unfold in Hok.
  fold total in Hok.
  do 4 (apply app_eq_nil in Hok as [_ Hok]).
  apply app_eq_nil in Hok as [Hpsu _].
  exists (headroom total). split; [by apply eval_estimate_wattage|].
  assert (Hexact : 0 ≤ total < 2 ^ 48 → headroom total = 13 * total / 10).
  { intros [H0 Hlt]. unfold headroom.
    destruct (Z.eqb_spec total 0) as [->|_]; [done|].
    rewrite int_mul_1_3_exact by lia. apply Z.quot_div_nonneg; lia. }
  split.
  - destruct (Z.le_gt_cases (headroom total) w) as [|Hgt]; [done|].
    exfalso.
    rewrite (psu_rule_fires _ _ w) in Hpsu; [done|done|lia| |lia].
    lia.
  - intros Hrange. rewrite Hexact by done. split; [done|].
    apply Z.div_le_lower_bound; lia.
Qed.

(** ** Updating a build *)

Lemma update_first_None k change (l : list (ObjectId * Build)) :
  lookup_build k l = None → update_first k change l = None.
Proof.
  induction l as [|[k' doc] l IH]; [done|]. cbn [lookup_build update_first].
  destruct (decide (k' = k)); [done|]. intros Hl. by rewrite IH.
Qed.

Lemma update_first_Some k change (l : list (ObjectId * Build)) doc :
  lookup_build k l = Some doc →
  ∃ pre post, l = pre ++ (k, doc) :: post ∧ (k ∉ pre.*1)
              ∧ update_first k change l = Some (pre ++ (k, change doc) :: post).
Proof.
  induction l as [|[k' doc'] l IH]; [done|]. cbn [lookup_build update_first].
  destruct (decide (k' = k)) as [->|Hne].
  - intros [= ->]. exists [], l. split; [done|]. split; [|done].
    apply not_elem_of_nil.
  - intros Hl. destruct (IH Hl) as (pre & post & -> & Hpre & ->).
    exists ((k', doc') :: pre), post. split; [done|]. split; [|done].
    rewrite fmap_cons. apply not_elem_of_cons. by split.
Qed.

Lemma lookup_build_middle k (pre post : list (ObjectId * Build)) doc :
  k ∉ pre.*1 → lookup_build k (pre ++ (k, doc) :: post) = Some doc.
Proof.
  induction pre as [|[k' doc'] pre IH]; intros Hpre; cbn [app lookup_build].
  - by rewrite decide_True.
  - rewrite fmap_cons in Hpre. apply not_elem_of_cons in Hpre as [Hne Hpre].
    rewrite decide_False by done. by apply IH.
Qed.

Lemma update_build_run build_id is_anchor' title' description' s :
  update_build build_id is_anchor' title' description' s
  = match is_anchor', title', description' with
    | None, None, None => (inl no_fields_error, s)
    | _, _, _ =>
        match ObjectId_of_str build_id with
        | None => (inl invalid_id, s)
        | Some k =>
            match update_first k (set_fields is_anchor' title' description')
                    (db_build s) with
            | Some l' => (inr true, mkDb (db_component s) l' (db_queries s))
            | None => (inl build_not_found, s)
            end
        end
    end.
Proof.
  unfold update_build.
  destruct is_anchor', title', description'; try reflexivity;
    rewrite bind_run; unfold oid;
    (destruct (ObjectId_of_str build_id) as [k|]; [|reflexivity]);
    unfold ret at 1; rewrite bind_run; unfold update_one;
    by destruct (update_first k _ (db_build s)).
Qed.

(** X8. The three ways [update_build] fails, each leaving the store as it
    was: no field named (before the identifier is looked at), an
    identifier that does not parse, no build under the key. *)
Theorem update_build_failures build_id is_anchor' title' description' s :
  update_build build_id None None None s = (inl no_fields_error, s)
  ∧ ((is_anchor', title', description') ≠ (None, None, None) →
     (ObjectId_of_str build_id = None →
      update_build build_id is_anchor' title' description' s
      = (inl invalid_id, s))
     ∧ (∀ k, ObjectId_of_str build_id = Some k →
          lookup_build k (db_build s) = None →
          update_build build_id is_anchor' title' description' s
          = (inl build_not_found, s))).
Proof.
  split; [reflexivity|]. intros Hsome. rewrite update_build_run. split.
  - intros ->. by destruct is_anchor', title', description'.
  - intros k -> Hnone. rewrite update_first_None by done.
    by destruct is_anchor', title', description'.
Qed.

(** X9. On the first build under the key, [update_build] replaces the
    fields it is given and keeps the others; the builds around it, and
    the catalogue, stay as they are. *)
Theorem update_build_sets_fields build_id is_anchor' title' description' s
    k pre doc post :
  (is_anchor', title', description') ≠ (None, None, None) →
  ObjectId_of_str build_id = Some k →
  db_build s = pre ++ (k, doc) :: post → k ∉ pre.*1 →
  ∃ doc',
    update_build build_id is_anchor' title' description' s
    = (inr true, mkDb (db_component s) (pre ++ (k, doc') :: post) (db_queries s))
    ∧ is_anchor doc' = default (is_anchor doc) is_anchor'
    ∧ title doc' = default (title doc) title'
    ∧ description doc'
      = match description' with Some d => Some d | None => description doc end
    ∧ creator_id doc' = creator_id doc ∧ components doc' = components doc
    ∧ total_price doc' = total_price doc ∧ likes doc' = likes doc.
Proof.
  intros Hsome Hk Hl Hpre.
  exists (set_fields is_anchor' title' description' doc).
  split; [|by repeat split].
  rewrite update_build_run, Hk.
  destruct (update_first_Some k (set_fields is_anchor' title' description')
              (db_build s) doc) as (pre' & post' & Hl' & Hpre' & ->).
  { rewrite Hl. by apply lookup_build_middle. }
  assert (pre' = pre ∧ post' = post) as [-> ->].
  { rewrite Hl in Hl'. clear -Hl' Hpre Hpre'.
    revert pre' Hl' Hpre'. induction pre as [|[k1 d1] pre IH];
      intros [|[k2 d2] pre'] Hl' Hpre'; cbn [app] in Hl'.
    - by simplify_eq.
    - simplify_eq. exfalso. apply Hpre'. rewrite fmap_cons. constructor.
    - simplify_eq. exfalso. apply Hpre. rewrite fmap_cons. constructor.
    - injection Hl' as Hk1 Hd1 Hl'. subst k2 d2.
      rewrite fmap_cons in Hpre, Hpre'.
      apply not_elem_of_cons in Hpre as [_ Hpre].
      apply not_elem_of_cons in Hpre' as [_ Hpre'].
      destruct (IH Hpre pre' Hl' Hpre') as [-> ->]. done. }
  by destruct is_anchor', title', description'.
Qed.

Lemma set_fields_idempotent is_anchor' title' description' doc :
  set_fields is_anchor' title' description'
    (set_fields is_anchor' title' description' doc)
  = set_fields is_anchor' title' description' doc.
Proof. by destruct is_anchor', title', description'. Qed.

Lemma update_first_idempotent k change (l l' : list (ObjectId * Build)) :
  (∀ doc, change (change doc) = change doc) →
  update_first k change l = Some l' → update_first k change l' = Some l'.
Proof.
  intros Hidem. revert l'.
  induction l as [|[k' doc] l IH]; intros l'; [done|]. cbn [update_first].
  destruct (decide (k' = k)) as [->|Hne].
  - intros [= <-]. cbn [update_first]. by rewrite decide_True, Hidem.
  - destruct (update_first k change l) as [l0|]; [|done].
    intros [= <-]. cbn [update_first]. rewrite decide_False by done.
    by rewrite (IH l0).
Qed.

(** X10. Sending the same update again changes nothing and gets the same
    answer. *)
Theorem update_build_idempotent build_id is_anchor' title' description' s :
  let again := update_build build_id is_anchor' title' description' in
  exec again (exec again s) = exec again s
  ∧ eval again (exec again s) = eval again s.
Proof.
  intros again. unfold again, eval, exec. rewrite !update_build_run.
  set (change := set_fields is_anchor' title' description').
  assert (Hgoal :
    ∀ r : (exn + bool) * Db,
      r = match ObjectId_of_str build_id with
          | Some k =>
              match update_first k change (db_build s) with
              | Some l' => (inr true, mkDb (db_component s) l' (db_queries s))
              | None => (inl build_not_found, s)
              end
          | None => (inl invalid_id, s)
          end →
      match ObjectId_of_str build_id with
      | Some k =>
          match update_first k change (db_build r.2) with
          | Some l' => (inr true, mkDb (db_component r.2) l' (db_queries r.2))
          | None => (inl build_not_found, r.2)
          end
      | None => (inl invalid_id, r.2)
      end = r).
  { intros r ->.
    destruct (ObjectId_of_str build_id) as [k|]; [|done].
    destruct (update_first k change (db_build s)) as [l'|] eqn:Hl.
    - cbn [snd db_build db_component db_queries].
      rewrite (update_first_idempotent k change (db_build s) l'); [done| |done].
      apply set_fields_idempotent.
    - cbn [snd]. by rewrite Hl. }
  destruct is_anchor', title', description'; try (by split);
    (split; [apply (f_equal snd), Hgoal | apply (f_equal fst), Hgoal]);
    reflexivity.
Qed.

Lemma update_first_core k change (l l' : list (ObjectId * Build)) (g : Build → Z) :
  (∀ p : ObjectId * Build, build_core (p.1, change p.2) = build_core p) →
  (∀ doc, g (change doc) = g doc) →
  update_first k change l = Some l' →
  (λ p : ObjectId * Build, (build_core p, g p.2)) <$> l'
  = (λ p, (build_core p, g p.2)) <$> l.
Proof.
  intros Hcore Hg. revert l'.
  induction l as [|[k' doc] l IH]; intros l'; [done|]. cbn [update_first].
  destruct (decide (k' = k)) as [->|Hne].
  - intros [= <-]. rewrite !fmap_cons. cbn [snd].
    pose proof (Hcore (k, doc)) as Hc. cbn [fst snd] in Hc.
    by rewrite Hc, Hg.
  - destruct (update_first k change l) as [l0|]; [|done].
    intros [= <-]. rewrite !fmap_cons. by rewrite (IH l0).
Qed.

Lemma update_build_keeps_core build_id is_anchor' title' description' s :
  let s' := exec (update_build build_id is_anchor' title' description') s in
  db_component s' = db_component s
  ∧ (λ p, (build_core p, likes p.2)) <$> db_build s'
    = (λ p, (build_core p, likes p.2)) <$> db_build s.
Proof.
  intros s'. unfold s', exec. rewrite update_build_run.
  assert (Hgoal :
    ∀ r : (exn + bool) * Db,
      r = match ObjectId_of_str build_id with
          | Some k =>
              match update_first k (set_fields is_anchor' title' description')
                      (db_build s) with
              | Some l' => (inr true, mkDb (db_component s) l' (db_queries s))
              | None => (inl build_not_found, s)
              end
          | None => (inl invalid_id, s)
          end →
      db_component r.2 = db_component s
      ∧ (λ p, (build_core p, likes p.2)) <$> db_build r.2
        = (λ p, (build_core p, likes p.2)) <$> db_build s).
  { intros r ->.
    destruct (ObjectId_of_str build_id) as [k|]; [|done].
    destruct (update_first k _ (db_build s)) as [l'|] eqn:Hl; [|done].
    split; [done|]. cbn [snd db_build].
    eapply update_first_core; [| |exact Hl]; by intros. }
  destruct is_anchor', title', description'; try (by split);
    by apply Hgoal.
Qed.

(** X11. Whatever it is given, [update_build] keeps the catalogue, and of
    every stored build the key, the creator, the references, the price
    and the likes, in the same order. *)
Theorem update_build_preserves build_id is_anchor' title' description' s :
  let s' := exec (update_build build_id is_anchor' title' description') s in
  db_component s' = db_component s
  ∧ (λ p, (build_core p, likes p.2)) <$> db_build s'
    = (λ p, (build_core p, likes p.2)) <$> db_build s.
Proof. exact (update_build_keeps_core build_id is_anchor' title' description' s). Qed.

(** ** Reading a build back *)

Lemma for_each_expand l : ∀ (acc : list Expanded) s,
  for_each (λ expanded bc,
      let* ck := oid (component_id bc) in
      let* c := find_one ck in
      ret (match c with
           | Some c => expanded ++ [mkExpanded bc (str_of_ObjectId ck) c]
           | None => expanded
           end)) acc l s
  = (if decide (Forall well_formed_ref l)
     then inr (acc ++ omap (expand s) l)
     else inl invalid_id,
     logged s (parsed_prefix l)).
Proof.
  induction l as [|bc l IH]; intros acc s.
  - cbn [for_each parsed_prefix]. rewrite logged_nil.
    rewrite decide_True by constructor. simpl. by rewrite app_nil_r.
  - cbn [for_each parsed_prefix]. rewrite bind_run, bind_run.
    assert (Hexp : ∀ k, ObjectId_of_str (component_id bc) = Some k →
                        expand s bc
                        = mkExpanded bc (str_of_ObjectId k) <$> db_component s !! k).
    { intros k Hk. unfold expand. by rewrite Hk. }
    destruct (ObjectId_of_str (component_id bc)) as [k|] eqn:Hk.
    + rewrite (oid_Some _ k) by done.
      rewrite bind_run, find_one_run. unfold ret at 1.
      rewrite IH, logged_app. cbn [app].
      change (expand (logged s [k])) with (expand s).
      destruct (decide (Forall well_formed_ref l)) as [Hl|Hl].
      * rewrite decide_True by (constructor; [by exists k | done]).
        do 2 f_equal. simpl. rewrite (Hexp k eq_refl).
        destruct (db_component s !! k); simpl; [|done].
        by rewrite <- app_assoc.
      * rewrite decide_False; [done|].
        intros Hall. by apply Forall_cons in Hall as [_ ?].
    + rewrite oid_None by done. rewrite logged_nil.
      rewrite decide_False; [done|].
      intros Hall. apply Forall_cons in Hall as [[k' Hk'] _]. congruence.
Qed.

Lemma get_build_run {CommentDoc} (comments_of : string → list CommentDoc)
    build_id s :
  get_build comments_of build_id s
  = match ObjectId_of_str build_id with
    | None => (inl invalid_id, s)
    | Some k =>
        match lookup_build k (db_build s) with
        | None => (inl build_not_found, s)
        | Some doc =>
            (if decide (well_formed doc)
             then inr (mkBuildView (str_of_ObjectId k) doc
                         (omap (expand s) (components doc))
                         (comments_of build_id))
             else inl invalid_id,
             logged s (parsed_prefix (components doc)))
        end
    end.
Proof.
  unfold get_build. rewrite bind_run.
  destruct (ObjectId_of_str build_id) as [k|] eqn:Hk.
  - rewrite (oid_Some _ k) by done. rewrite bind_run. unfold find_build.
    destruct (lookup_build k (db_build s)) as [doc|]; [|done].
    rewrite bind_run, for_each_expand. fold (well_formed doc).
    by destruct (decide (well_formed doc)).
  - by rewrite oid_None.
Qed.

Lemma expand_component s bc e :
  expand s bc = Some e →
  expanded_ref e = bc ∧ lookup_ref s bc = Some (expanded_component e).
Proof.
  unfold expand, lookup_ref.
  destruct (ObjectId_of_str (component_id bc)) as [k|]; [|done].
  destruct (db_component s !! k); [|done]. by intros [= <-].
Qed.

Lemma expand_None s bc : expand s bc = None → lookup_ref s bc = None.
Proof.
  unfold expand, lookup_ref.
  destruct (ObjectId_of_str (component_id bc)) as [k|]; [|done].
  by destruct (db_component s !! k).
Qed.

Lemma expanded_refs s l :
  expanded_ref <$> omap (expand s) l
  = filter (λ bc, is_Some (lookup_ref s bc)) l.
Proof.
  induction l as [|bc l IH]; [done|].
  rewrite filter_cons, <- IH.
  change (omap (expand s) (bc :: l))
    with (match expand s bc with
          | Some e => e :: omap (expand s) l
          | None => omap (expand s) l
          end).
  destruct (expand s bc) as [e|] eqn:He.
  - apply expand_component in He as [<- He].
    by rewrite decide_True by (by eexists).
  - apply expand_None in He.
    by rewrite decide_False by (rewrite He; by intros [? ?]).
Qed.

Lemma get_build_cases {CommentDoc} (comments_of : string → list CommentDoc)
    build_id s :
  (ObjectId_of_str build_id = None →
   get_build comments_of build_id s = (inl invalid_id, s))
  ∧ (∀ k, ObjectId_of_str build_id = Some k →
       lookup_build k (db_build s) = None →
       get_build comments_of build_id s = (inl build_not_found, s))
  ∧ (∀ k doc, ObjectId_of_str build_id = Some k →
       lookup_build k (db_build s) = Some doc → well_formed doc →
       ∃ view,
         eval (get_build comments_of build_id) s = inr view
         ∧ view_id view = str_of_ObjectId k ∧ view_doc view = doc
         ∧ comments view = comments_of build_id
         ∧ components_expanded view = omap (expand s) (components doc)
         ∧ expanded_ref <$> components_expanded view
           = filter (λ bc, is_Some (lookup_ref s bc)) (components doc))
  ∧ db_build (exec (get_build comments_of build_id) s) = db_build s
  ∧ db_component (exec (get_build comments_of build_id) s) = db_component s.
Proof.
  unfold eval, exec. rewrite get_build_run.
  split; [by intros ->|]. split; [by intros k -> ->|].
  split.
  - intros k doc -> -> Hwf. rewrite decide_True by done.
    eexists. split; [done|]. cbn [view_id view_doc comments components_expanded].
    repeat split. apply expanded_refs.
  - destruct (ObjectId_of_str build_id) as [k|]; [|done].
    by destruct (lookup_build k (db_build s)).
Qed.

(** X12. [get_build] fails on an identifier that does not parse and on a
    key with no build, touching nothing; on a stored build it answers
    with the document and its comments, expands the references that
    resolve, in order, and drops the others without an error; it never
    changes the builds or the catalogue. *)
Theorem get_build_expands {CommentDoc} (comments_of : string → list CommentDoc)
    build_id s :
  (ObjectId_of_str build_id = None →
   get_build comments_of build_id s = (inl invalid_id, s))
  ∧ (∀ k, ObjectId_of_str build_id = Some k →
       lookup_build k (db_build s) = None →
       get_build comments_of build_id s = (inl build_not_found, s))
  ∧ (∀ k doc, ObjectId_of_str build_id = Some k →
       lookup_build k (db_build s) = Some doc → well_formed doc →
       ∃ view,
         eval (get_build comments_of build_id) s = inr view
         ∧ view_id view = str_of_ObjectId k ∧ view_doc view = doc
         ∧ comments view = comments_of build_id
         ∧ components_expanded view = omap (expand s) (components doc)
         ∧ expanded_ref <$> components_expanded view
           = filter (λ bc, is_Some (lookup_ref s bc)) (components doc))
  ∧ db_build (exec (get_build comments_of build_id) s) = db_build s
  ∧ db_component (exec (get_build comments_of build_id) s) = db_component s.
Proof. exact (get_build_cases comments_of build_id s). Qed.

Lemma resolved_refs_all s l :
  Forall (λ bc, is_Some (lookup_ref s bc)) l →
  filter (λ bc, is_Some (lookup_ref s bc)) l = l.
Proof.
  induction 1 as [|bc l Hbc _ IH]; [done|].
  by rewrite filter_cons, decide_True, IH.
Qed.

(** X13. A build that was created can be read back under the returned id:
    the stored document, with every reference expanded to the catalogue
    entry it priced. *)
Theorem created_build_reads_back {CommentDoc}
    (comments_of : string → list CommentDoc) s new_id build created :
  ObjectId_of_str (str_of_ObjectId new_id) = Some new_id →
  new_id ∉ (db_build s).*1 →
  eval (create_build new_id build) s = inr created →
  ∃ view,
    eval (get_build comments_of (created_id created))
         (exec (create_build new_id build) s) = inr view
    ∧ view_id view = created_id created
    ∧ view_doc view = stored_document build (created_total_price created)
    ∧ expanded_ref <$> components_expanded view = components build
    ∧ Forall (λ e, lookup_ref s (expanded_ref e) = Some (expanded_component e))
        (components_expanded view).
Proof.
  intros Hround Hfresh Hok.
  pose proof (create_build_store_after s new_id build) as [Hcat Hstore].
  rewrite Hok in Hstore.
  apply create_build_success in Hok as (Hnone & -> & _).
  cbn [created_id created_total_price] in *.
  set (s' := exec (create_build new_id build) s) in *.
  set (doc := stored_document build (price_sum (resolved s build))) in *.
  assert (Hwf : well_formed doc)
    by (by eapply first_unresolved_None_well_formed).
  assert (Hlookup : lookup_build new_id (db_build s') = Some doc)
    by (rewrite Hstore; by apply lookup_build_middle).
  destruct (get_build_cases comments_of (str_of_ObjectId new_id) s')
    as (_ & _ & Hview & _).
  destruct (Hview new_id doc Hround Hlookup Hwf)
    as (view & Heval & Hid & Hdoc & _ & Hexp & Hrefs).
  assert (Hsame : ∀ bc, lookup_ref s' bc = lookup_ref s bc)
    by (intros bc; unfold lookup_ref; by rewrite Hcat).
  exists view. split; [done|]. split; [done|]. split; [done|].
  apply first_unresolved_None in Hnone. split.
  - rewrite Hrefs. cbn [doc stored_document components].
    apply resolved_refs_all.
    eapply Forall_impl; [exact Hnone|]. intros bc. by rewrite Hsame.
  - rewrite Hexp. apply Forall_forall. intros e He.
    apply list_elem_of_omap in He as (bc & _ & He).
    apply expand_component in He as [-> He]. by rewrite <- Hsame.
Qed.

(** ** An invariant of the stored builds *)

Lemma lookup_build_elem_of k (l : list (ObjectId * Build)) doc :
  lookup_build k l = Some doc → (k, doc) ∈ l.
Proof.
  induction l as [|[k' doc'] l IH]; [done|]. cbn [lookup_build].
  destruct (decide (k' = k)) as [->|].
  - intros [= ->]. constructor.
  - intros Hl. apply elem_of_cons. right. by apply IH.
Qed.

(** X14. Once every stored build has identifiers that parse, creating and
    updating builds keeps it so, and then reading a stored build never
    fails. *)
Theorem stored_builds_stay_well_formed s :
  stored_well_formed s →
  (∀ new_id build, stored_well_formed (exec (create_build new_id build) s))
  ∧ (∀ build_id is_anchor' title' description',
       stored_well_formed
         (exec (update_build build_id is_anchor' title' description') s))
  ∧ (∀ CommentDoc (comments_of : string → list CommentDoc) build_id k doc,
       ObjectId_of_str build_id = Some k →
       lookup_build k (db_build s) = Some doc →
       ∃ view, eval (get_build comments_of build_id) s = inr view).
Proof.
  intros Hinv. split; [|split].
  - intros new_id build. unfold stored_well_formed.
    pose proof (create_build_store_after s new_id build) as [_ Hstore].
    destruct (eval (create_build new_id build) s) as [e|created] eqn:Hok;
      rewrite Hstore; [done|].
    apply Forall_app. split; [done|]. constructor; [|done].
    apply create_build_success in Hok as (Hnone & _ & _).
    by eapply first_unresolved_None_well_formed.
  - intros build_id is_anchor' title' description'.
    pose proof (update_build_keeps_core build_id is_anchor' title' description' s)
      as [_ Hcore]. cbv zeta in Hcore.
    unfold stored_well_formed in *.
    set (l' := db_build (exec _ s)) in *.
    apply (f_equal (fmap (λ q : _ * Z, q.1.1.2))) in Hcore.
    rewrite <- !list_fmap_compose in Hcore.
    assert (Hc : (λ p : ObjectId * Build, components p.2) <$> l'
                 = (λ p, components p.2) <$> db_build s) by exact Hcore.
    apply Forall_forall. intros [k doc] Hin.
    assert (Hcs : components doc ∈ (λ p : ObjectId * Build, components p.2) <$> l')
      by (apply list_elem_of_fmap; by exists (k, doc)).
    rewrite Hc in Hcs.
    apply list_elem_of_fmap in Hcs as ([k0 doc0] & Heq & Hin0).
    eapply Forall_forall in Hinv; [|exact Hin0].
    cbn [snd] in *. unfold well_formed in *. by rewrite Heq.
  - intros CommentDoc comments_of build_id k doc Hk Hdoc.
    destruct (get_build_cases comments_of build_id s) as (_ & _ & Hview & _).
    destruct (Hview k doc Hk Hdoc) as (view & Heval & _); [|by exists view].
    apply lookup_build_elem_of in Hdoc.
    unfold stored_well_formed in Hinv.
    by eapply Forall_forall in Hinv; [|exact Hdoc].
Qed.

(** ** Likes *)

Lemma like_build_run b u (t : Site) :
  like_build b u t
  = if liked b u (db_like t) then (inl already_liked, t)
    else
      match ObjectId_of_str b with
      | None =>
          (inl invalid_id, mkSite (site_db t) (db_like t ++ [mkLike b u]))
      | Some k =>
          match update_first k inc_likes (db_build (site_db t)) with
          | Some l' =>
              (inr "ok",
               mkSite (mkDb (db_component (site_db t)) l' (db_queries (site_db t)))
                      (db_like t ++ [mkLike b u]))
          | None => (inr "ok", mkSite (site_db t) (db_like t ++ [mkLike b u]))
          end
      end.
Proof.
  unfold like_build. destruct (liked b u (db_like t)); [done|].
  rewrite bind_run. unfold oid.
  destruct (ObjectId_of_str b) as [k|]; [|done].
  unfold ret, update_one.
  by destruct (update_first k inc_likes (db_build (site_db t))).
Qed.

Lemma liked_snoc b u (likes_ : list Like) :
  liked b u (likes_ ++ [mkLike b u]) = true.
Proof.
  unfold liked. rewrite existsb_app. simpl.
  rewrite !String.eqb_refl. by rewrite orb_true_r.
Qed.

Lemma liked_snoc_other b u b' u' (likes_ : list Like) :
  b ≠ b' → liked b u (likes_ ++ [mkLike b' u']) = liked b u likes_.
Proof.
  intros Hne. unfold liked. rewrite existsb_app. simpl.
  destruct (String.eqb_spec b' b) as [->|_]; [done|].
  by rewrite orb_false_r.
Qed.

(** X15. A second like of the same build identifier by the same user is
    refused and changes nothing, whatever the first one did. *)
Theorem like_build_counts_once b u (t : Site) :
  like_build b u (like_build b u t).2
  = (inl already_liked, (like_build b u t).2).
Proof.
  rewrite (like_build_run b u t).
  destruct (liked b u (db_like t)) eqn:Hliked.
  - cbn [snd]. by rewrite like_build_run, Hliked.
  - destruct (ObjectId_of_str b) as [k|];
      [destruct (update_first k inc_likes (db_build (site_db t)))|];
      cbn [snd]; rewrite like_build_run; cbn [db_like];
      by rewrite liked_snoc.
Qed.

Lemma like_build_first_like b u (t : Site) k pre doc post :
  liked b u (db_like t) = false →
  ObjectId_of_str b = Some k →
  db_build (site_db t) = pre ++ (k, doc) :: post → k ∉ pre.*1 →
  ∃ doc',
    like_build b u t
    = (inr "ok",
       mkSite (mkDb (db_component (site_db t)) (pre ++ (k, doc') :: post)
                    (db_queries (site_db t)))
              (db_like t ++ [mkLike b u]))
    ∧ likes doc' = likes doc + 1
    ∧ title doc' = title doc ∧ description doc' = description doc
    ∧ creator_id doc' = creator_id doc ∧ is_anchor doc' = is_anchor doc
    ∧ components doc' = components doc ∧ total_price doc' = total_price doc.
Proof.
  intros Hliked Hk Hl Hpre. exists (inc_likes doc).
  split; [|by repeat split].
  rewrite like_build_run, Hliked, Hk.
  destruct (update_first_Some k inc_likes (db_build (site_db t)) doc)
    as (pre' & post' & Hl' & Hpre' & ->).
  { rewrite Hl. by apply lookup_build_middle. }
  assert (pre' = pre ∧ post' = post) as [-> ->]; [|done].
  rewrite Hl in Hl'. clear -Hl' Hpre Hpre'.
  revert pre' Hl' Hpre'. induction pre as [|[k1 d1] pre IH];
    intros [|[k2 d2] pre'] Hl' Hpre'; cbn [app] in Hl'.
  - by simplify_eq.
  - simplify_eq. exfalso. apply Hpre'. rewrite fmap_cons. constructor.
  - simplify_eq. exfalso. apply Hpre. rewrite fmap_cons. constructor.
  - injection Hl' as Hk1 Hd1 Hl'. subst k2 d2.
    rewrite fmap_cons in Hpre, Hpre'.
    apply not_elem_of_cons in Hpre as [_ Hpre].
    apply not_elem_of_cons in Hpre' as [_ Hpre'].
    destruct (IH Hpre pre' Hl' Hpre') as [-> ->]. done.
Qed.

(** X16. A first like of a stored build adds one to the likes of the first
    build under the key, keeps its other fields and the other builds,
    and records the like. *)
Theorem like_build_increments b u (t : Site) k pre doc post :
  liked b u (db_like t) = false →
  ObjectId_of_str b = Some k →
  db_build (site_db t) = pre ++ (k, doc) :: post → k ∉ pre.*1 →
  ∃ doc',
    like_build b u t
    = (inr "ok",
       mkSite (mkDb (db_component (site_db t)) (pre ++ (k, doc') :: post)
                    (db_queries (site_db t)))
              (db_like t ++ [mkLike b u]))
    ∧ likes doc' = likes doc + 1
    ∧ title doc' = title doc ∧ description doc' = description doc
    ∧ creator_id doc' = creator_id doc ∧ is_anchor doc' = is_anchor doc
    ∧ components doc' = components doc ∧ total_price doc' = total_price doc.
Proof. exact (like_build_first_like b u t k pre doc post). Qed.

(** X17. A like is recorded before the build is looked for.  For an
    identifier that does not parse the request fails with [Invalid id]
    and the like stays recorded; for a key with no build the request
    succeeds, and no build changes. *)
Theorem like_build_records_unmatched b u (t : Site) :
  liked b u (db_like t) = false →
  (ObjectId_of_str b = None →
   like_build b u t
   = (inl invalid_id, mkSite (site_db t) (db_like t ++ [mkLike b u])))
  ∧ (∀ k, ObjectId_of_str b = Some k →
       lookup_build k (db_build (site_db t)) = None →
       like_build b u t
       = (inr "ok", mkSite (site_db t) (db_like t ++ [mkLike b u]))).
Proof.
  intros Hliked. rewrite like_build_run, Hliked. split.
  - by intros ->.
  - intros k -> Hnone. by rewrite update_first_None.
Qed.

(** X18. Likes are told apart by the identifier as written, builds by the
    key it parses to: through two spellings of one key the same user
    raises the likes of the build twice. *)
Theorem like_build_spellings b1 b2 u (t : Site) k pre doc post :
  b1 ≠ b2 → ObjectId_of_str b1 = Some k → ObjectId_of_str b2 = Some k →
  liked b1 u (db_like t) = false → liked b2 u (db_like t) = false →
  db_build (site_db t) = pre ++ (k, doc) :: post → k ∉ pre.*1 →
  let t1 := (like_build b1 u t).2 in
  let t2 := (like_build b2 u t1).2 in
  (like_build b1 u t).1 = inr "ok"
  ∧ (like_build b2 u t1).1 = inr "ok"
  ∧ ∃ doc2, lookup_build k (db_build (site_db t2)) = Some doc2
            ∧ likes doc2 = likes doc + 2.
Proof.
  intros Hne Hk1 Hk2 Hl1 Hl2 Hl Hpre t1 t2.
  destruct (like_build_first_like b1 u t k pre doc post Hl1 Hk1 Hl Hpre)
    as (doc1 & Hrun1 & Hlikes1 & _).
  assert (Ht1 : t1 = (like_build b1 u t).2) by done.
  rewrite Hrun1 in Ht1 |- *. cbn [fst snd] in Ht1.
  assert (Hl2' : liked b2 u (db_like t1) = false).
  { rewrite Ht1. cbn [db_like]. rewrite liked_snoc_other by done. exact Hl2. }
  destruct (like_build_first_like b2 u t1 k pre doc1 post Hl2' Hk2)
    as (doc2 & Hrun2 & Hlikes2 & _); [by rewrite Ht1|done|].
  assert (Ht2 : t2 = (like_build b2 u t1).2) by done.
  rewrite Hrun2 in Ht2 |- *. cbn [fst snd] in Ht2.
  split; [done|]. split; [done|].
  exists doc2. split; [|lia].
  rewrite Ht2. cbn [site_db db_build]. by apply lookup_build_middle.
Qed.

Lemma update_first_fmap {B} k change (l l' : list (ObjectId * Build))
    (g : ObjectId * Build → B) :
  (∀ p, g (p.1, change p.2) = g p) →
  update_first k change l = Some l' → g <$> l' = g <$> l.
Proof.
  intros Hg. revert l'.
  induction l as [|[k' doc] l IH]; intros l'; [done|]. cbn [update_first].
  destruct (decide (k' = k)) as [->|Hne].
  - intros [= <-]. rewrite !fmap_cons.
    pose proof (Hg (k, doc)) as Hp. cbn [fst snd] in Hp. by rewrite Hp.
  - destruct (update_first k change l) as [l0|]; [|done].
    intros [= <-]. rewrite !fmap_cons. by rewrite (IH l0).
Qed.

(** X19. Whatever its outcome, a like leaves the catalogue alone, and of
    every stored build everything but the likes, which never go down. *)
Theorem like_build_preserves b u (t : Site) :
  let s := site_db t in
  let s' := site_db (like_build b u t).2 in
  db_component s' = db_component s
  ∧ (λ p, (p.1, title p.2, description p.2, creator_id p.2, is_anchor p.2,
           components p.2, total_price p.2)) <$> db_build s'
    = (λ p, (p.1, title p.2, description p.2, creator_id p.2, is_anchor p.2,
             components p.2, total_price p.2)) <$> db_build s
  ∧ Forall2 (λ p p', likes p.2 ≤ likes p'.2) (db_build s) (db_build s').
Proof.
  intros s s'. unfold s', s. rewrite like_build_run.
  assert (Hsame : Forall2 (λ p p' : ObjectId * Build, likes p.2 ≤ likes p'.2)
                    (db_build (site_db t)) (db_build (site_db t)))
    by (apply Forall2_same_length_lookup; split; [done|];
        intros i p p' Hp Hp'; by simplify_eq).
  destruct (liked b u (db_like t)); [done|].
  destruct (ObjectId_of_str b) as [k|]; [|done].
  destruct (update_first k inc_likes (db_build (site_db t))) as [l'|] eqn:Hl;
    [|done].
  cbn [snd site_db db_component db_build]. split; [done|]. split.
  - eapply update_first_fmap; [|exact Hl]. by intros.
  - clear Hsame. revert l' Hl.
    induction (db_build (site_db t)) as [|[k' doc] l IH]; intros l'; [done|].
    cbn [update_first]. destruct (decide (k' = k)) as [->|Hne].
    + intros [= <-]. constructor; [cbn; lia|].
      apply Forall2_same_length_lookup; split; [done|].
      intros i p p' Hp Hp'. by simplify_eq.
    + destruct (update_first k inc_likes l) as [l0|]; [|done].
      intros [= <-]. constructor; [done|]. by apply IH.
Qed.

(** ** Listings *)

Section Listings.
Variable sort_by_likes :
  bool → list (ObjectId * Build) → list (ObjectId * Build).
Hypothesis sort_by_likes_Permutation :
  ∀ descending docs, sort_by_likes descending docs ≡ₚ docs.
Hypothesis sort_by_likes_StronglySorted :
  ∀ descending docs,
    StronglySorted (likes_order descending) (sort_by_likes descending docs).

(** The anchor listing shows exactly the stored builds whose flag is
    set, most liked first, and changes nothing. *)
Theorem list_anchor_builds_shows_flagged s :
  ∃ shown,
    list_anchor_builds sort_by_likes s = (inr (with_ids shown), s)
    ∧ shown ≡ₚ filter (λ p, is_anchor p.2 = true) (db_build s)
    ∧ (∀ p, p ∈ shown ↔ p ∈ db_build s ∧ is_anchor p.2 = true)
    ∧ StronglySorted (λ x y, likes y.2 ≤ likes x.2) shown.
Proof.
  eexists. split; [reflexivity|]. split; [apply sort_by_likes_Permutation|].
  split; [|apply (sort_by_likes_StronglySorted true)].
  intros p. rewrite sort_by_likes_Permutation.
  rewrite list_elem_of_filter. tauto.
Qed.

(** X20. Nothing stands between the flag and the listing: a build created
    with [is_anchor] set, or given it by [update_build], is in the next
    anchor listing. *)
Theorem anchor_listing_follows_flag s :
  (∀ new_id build created,
     eval (create_build new_id build) s = inr created →
     is_anchor build = true →
     ∃ items,
       eval (list_anchor_builds sort_by_likes) (exec (create_build new_id build) s)
       = inr items
       ∧ (created_id created,
          stored_document build (created_total_price created)) ∈ items)
  ∧ (∀ build_id title' description' k doc,
       ObjectId_of_str build_id = Some k →
       lookup_build k (db_build s) = Some doc →
       ∃ items,
         eval (update_build build_id (Some true) title' description') s = inr true
         ∧ eval (list_anchor_builds sort_by_likes)
             (exec (update_build build_id (Some true) title' description') s)
           = inr items
         ∧ (str_of_ObjectId k, set_fields (Some true) title' description' doc)
           ∈ items).
Proof.
  split.
  - intros new_id build created Hok Hflag.
    pose proof (create_build_store_after s new_id build) as [_ Hstore].
    rewrite Hok in Hstore.
    apply create_build_success in Hok as (_ & -> & _).
    cbn [created_id created_total_price] in *.
    set (s' := exec (create_build new_id build) s) in *.
    destruct (list_anchor_builds_shows_flagged s')
      as (shown & Hrun & _ & Hin & _).
    eexists. split; [unfold eval; by rewrite Hrun|].
    unfold with_ids. apply list_elem_of_fmap.
    exists (new_id, stored_document build (price_sum (resolved s build))).
    split; [done|]. apply Hin. split; [|done].
    rewrite Hstore. apply elem_of_app. right. constructor.
  - intros build_id title' description' k doc Hk Hdoc.
    destruct (update_first_Some k (set_fields (Some true) title' description')
                (db_build s) doc Hdoc) as (pre & post & Hl & Hpre & Hup).
    assert (Hrun : update_build build_id (Some true) title' description' s
                   = (inr true,
                      mkDb (db_component s)
                        (pre ++ (k, set_fields (Some true) title' description' doc)
                             :: post) (db_queries s))).
    { rewrite update_build_run, Hk, Hup. by destruct title', description'. }
    unfold eval, exec. rewrite Hrun. cbn [fst snd].
    destruct (list_anchor_builds_shows_flagged
                (mkDb (db_component s)
                   (pre ++ (k, set_fields (Some true) title' description' doc)
                        :: post) (db_queries s)))
      as (shown & Hlist & _ & Hin & _).
    eexists. split; [done|]. rewrite Hlist. split; [done|].
    unfold with_ids. apply list_elem_of_fmap.
    exists (k, set_fields (Some true) title' description' doc).
    split; [done|]. apply Hin. cbn [db_build]. split; [|by destruct title', description'].
    apply elem_of_app. right. constructor.
Qed.

(** X21. [list_builds] shows the first builds in the order asked for: three
    of the most liked when [top_loved] is set, whatever [limit] says,
    and otherwise [limit] of the least liked; every build shown comes
    before every build left out. *)
Theorem list_builds_shows_extremes s (top_loved : bool) (limit : Z) :
  let n := if top_loved then 3 else limit in
  0 < n →
  ∃ shown rest,
    list_builds sort_by_likes top_loved limit s = (inr (with_ids shown), s)
    ∧ shown ++ rest ≡ₚ db_build s
    ∧ length shown = (Z.to_nat n `min` length (db_build s))%nat
    ∧ ∀ x y, x ∈ shown → y ∈ rest → likes_order top_loved x y.
Proof.
  intros n Hn.
  set (sorted := sort_by_likes top_loved (db_build s)).
  exists (take (Z.to_nat n) sorted), (drop (Z.to_nat n) sorted).
  split.
  { unfold list_builds, cursor_limit. fold n sorted.
    destruct (Z.eqb_spec n 0); [lia|]. by rewrite Z.abs_eq by lia. }
  split; [rewrite take_drop; apply sort_by_likes_Permutation|].
  split.
  { rewrite length_take. unfold sorted.
    by rewrite (Permutation_length (sort_by_likes_Permutation _ _)). }
  intros x y Hx Hy.
  pose proof (sort_by_likes_StronglySorted top_loved (db_build s)) as Hsorted.
  fold sorted in Hsorted. rewrite <- (take_drop (Z.to_nat n) sorted) in Hsorted.
  by eapply StronglySorted_app_1_elem_of.
Qed.

End Listings.

End Handler_properties.

(** ** The lower-casing on ASCII catalogues

    Where the sockets and memory types of the catalogue are ASCII text,
    the handlers do not depend on the [Unicode] they run under: what
    holds of them under one lower-casing holds under [str.lower]. *)

Section Any_unicode.
Context {ObjectId : Type} `{!Bson ObjectId}.
Variables U U' : Unicode.
Implicit Types (s : Db) (build : Build).

Lemma lower_unicode c :
  isascii c = true → lower (Unicode := U) c = lower (Unicode := U') c.
Proof. intros Hc. by rewrite !lower_isascii. Qed.

Lemma role_lookup_catalogue s build role d :
  role_lookup s build role = Some d → ∃ k, db_component s !! k = Some d.
Proof.
  unfold role_lookup, lookup_ref.
  destruct (last _) as [bc|]; [|done].
  destruct (ObjectId_of_str _) as [k|]; [|done]. eauto.
Qed.

Lemma truthy_str_isascii s build role field c :
  ascii_catalogue s →
  (∀ d, plain_ascii d = true → from_option isascii true (field d) = true) →
  truthy_str (role_lookup s build role) field = Some c → isascii c = true.
Proof.
  intros Hs Hfield Hc. apply truthy_str_Some in Hc as [Hc _].
  destruct (role_lookup s build role) as [d|] eqn:Hd; [|done].
  apply role_lookup_catalogue in Hd as [k Hk].
  specialize (Hfield d (Hs k d Hk)). simpl in Hc. by rewrite Hc in Hfield.
Qed.

Lemma rule_table_unicode s build est :
  ascii_catalogue s →
  rule_table (unicode := U) (role_lookup s build) est
  = rule_table (unicode := U') (role_lookup s build) est.
Proof.
  intros Hs. rewrite !rule_table_unfold. f_equal; [|f_equal].
  - unfold socket_rule.
    destruct (truthy_str (role_lookup s build "cpu") socket) as [c|] eqn:Hc;
      [|done].
    destruct (truthy_str (role_lookup s build "motherboard") socket)
      as [m|] eqn:Hm; [|done].
    rewrite (lower_unicode c), (lower_unicode m); [done| |].
    + apply (truthy_str_isascii s build "motherboard" socket); [done| |done].
      unfold plain_ascii. by intros d [? _]%andb_prop.
    + apply (truthy_str_isascii s build "cpu" socket); [done| |done].
      unfold plain_ascii. by intros d [? _]%andb_prop.
  - unfold ram_rule.
    destruct (truthy_str (role_lookup s build "ram") ram_type) as [r|] eqn:Hr;
      [|done].
    destruct (truthy_str (role_lookup s build "motherboard") ram_type)
      as [m|] eqn:Hm; [|done].
    rewrite (lower_unicode r), (lower_unicode m); [done| |].
    + apply (truthy_str_isascii s build "motherboard" ram_type); [done| |done].
      unfold plain_ascii. by intros d [_ ?]%andb_prop.
    + apply (truthy_str_isascii s build "ram" ram_type); [done| |done].
      unfold plain_ascii. by intros d [_ ?]%andb_prop.
Qed.

(** The checker, the validation and the creation of a build run the same
    under any two lower-casings of an ASCII catalogue. *)
Lemma compatibility_issues_unicode s build :
  ascii_catalogue s →
  compatibility_issues (unicode := U) build s
  = compatibility_issues (unicode := U') build s.
Proof.
  intros Hs. rewrite !compatibility_issues_run.
  by rewrite (rule_table_unicode s build _ Hs).
Qed.

Lemma validate_build_unicode s build :
  ascii_catalogue s →
  validate_build (unicode := U) build s = validate_build (unicode := U') build s.
Proof.
  intros Hs. rewrite !validate_build_run.
  by rewrite (rule_table_unicode s build _ Hs).
Qed.

Lemma create_build_unicode new_id s build :
  ascii_catalogue s →
  create_build (unicode := U) new_id build s
  = create_build (unicode := U') new_id build s.
Proof.
  intros Hs. rewrite !create_build_run.
  by rewrite (rule_table_unicode s build _ Hs).
Qed.

End Any_unicode.

(** * The further properties on the example store *)

(** The example catalogue is ASCII text: the runs shown on it are those
    under any lower-casing, [str.lower] among them. *)
Lemma store_ascii : ascii_catalogue store ∧ ascii_catalogue gallery.
Proof.
  assert (H : ascii_catalogue store).
  { unfold ascii_catalogue. apply map_Forall_to_list.
    apply (bool_decide_unpack _). vm_compute. exact I. }
  split; exact H.
Qed.

Lemma example_runs_any_unicode (U : Unicode) new_id build :
  compatibility_issues (unicode := U) build store
  = compatibility_issues build store
  ∧ validate_build (unicode := U) build store = validate_build build store
  ∧ create_build (unicode := U) new_id build store
    = create_build new_id build store.
Proof.
  destruct store_ascii as [Hs _].
  split; [|split].
  - by apply compatibility_issues_unicode.
  - by apply validate_build_unicode.
  - by apply create_build_unicode.
Qed.

#[export] Instance likes_order_trans {ObjectId : Type} descending :
  Transitive (likes_order (ObjectId := ObjectId) descending).
Proof. intros x y z. unfold likes_order. destruct descending; lia. Qed.

#[export] Instance likes_order_total {ObjectId : Type} descending :
  Total (likes_order (ObjectId := ObjectId) descending).
Proof. intros x y. unfold likes_order. destruct descending; lia. Qed.

Lemma merge_sort_by_likes_Permutation descending docs :
  merge_sort_by_likes descending docs ≡ₚ docs.
Proof. apply merge_sort_Permutation. Qed.

Lemma merge_sort_by_likes_StronglySorted descending docs :
  StronglySorted (likes_order descending) (merge_sort_by_likes descending docs).
Proof. apply StronglySorted_merge_sort; apply _. Qed.

Ltac solve_resolved :=
  repeat first [ apply Forall_nil_2
               | apply Forall_cons_2; [eexists; vm_compute; reflexivity|] ].

(** Validation of a build with a missing gpu: no error, the estimate,
    and the builds as before. *)
Lemma validate_build_reads_only_witness :
  well_formed build_missing_gpu
  ∧ eval (validate_build build_missing_gpu) store = inr ([], 130)
  ∧ db_build (exec (validate_build build_missing_gpu) store) = db_build store.
Proof.
  assert (Hwf : well_formed build_missing_gpu) by solve_well_formed.
  destruct (validate_build_reads_only build_missing_gpu store)
    as (_ & Hbuilds & Hok & _).
  split; [exact Hwf|]. split; [|exact Hbuilds].
  rewrite (Hok Hwf). vm_compute. reflexivity.
Defined.

(** A build whose references all resolve but that breaks three rules:
    creation is refused with the three messages. *)
Lemma create_build_iff_validation_witness :
  Forall (λ bc, is_Some (lookup_ref store bc)) (components build_socket_and_psu)
  ∧ eval (create_build id_fresh build_socket_and_psu) store
    = inl (HTTPException 400
             (Errors [socket_message "AM5" "LGA1700"; gpu_message;
                      psu_message 520 500]))
  ∧ db_build (exec (create_build id_fresh build_socket_and_psu) store)
    = db_build store.
Proof.
  assert (Hall : Forall (λ bc, is_Some (lookup_ref store bc))
                   (components build_socket_and_psu)) by solve_resolved.
  assert (Hval : eval (validate_build build_socket_and_psu) store
                 = inr ([socket_message "AM5" "LGA1700"; gpu_message;
                         psu_message 520 500], 520))
    by (vm_compute; reflexivity).
  destruct (create_build_iff_validation store id_fresh build_socket_and_psu)
    as (_ & Hrefused).
  split; [exact Hall|].
  apply (Hrefused _ 520 Hall Hval). discriminate.
Defined.

(** The gpu before the cpu: the same 325. *)
Lemma estimate_wattage_order_irrelevant_witness :
  components build_tdp_100_150
  ≡ₚ components (draft [ref id_gpu_300 "gpu"; ref id_cpu "cpu"])
  ∧ eval (estimate_wattage (draft [ref id_gpu_300 "gpu"; ref id_cpu "cpu"])) store
    = inr 325.
Proof.
  assert (Hperm : components build_tdp_100_150
                  ≡ₚ components (draft [ref id_gpu_300 "gpu"; ref id_cpu "cpu"]))
    by apply Permutation_swap.
  split; [exact Hperm|].
  rewrite <- (estimate_wattage_order_irrelevant store _ _ Hperm).
  vm_compute. reflexivity.
Defined.

(** Five roles, one reference each, in reverse: the same three
    messages. *)
Lemma compatibility_issues_order_irrelevant_witness :
  NoDup (bc_type <$> components build_socket_and_psu)
  ∧ components build_socket_and_psu
    ≡ₚ components (with_components (reverse (components build_socket_and_psu))
                     build_socket_and_psu)
  ∧ eval (compatibility_issues
            (with_components (reverse (components build_socket_and_psu))
               build_socket_and_psu)) store
    = inr [socket_message "AM5" "LGA1700"; gpu_message; psu_message 520 500].
Proof.
  assert (Hnodup : NoDup (bc_type <$> components build_socket_and_psu)).
  { apply (bool_decide_unpack _). vm_compute. exact I. }
  assert (Hperm : components build_socket_and_psu
                  ≡ₚ components (with_components
                                   (reverse (components build_socket_and_psu))
                                   build_socket_and_psu))
    by (symmetry; apply reverse_Permutation).
  split; [exact Hnodup|]. split; [exact Hperm|].
  rewrite <- (compatibility_issues_order_irrelevant store _ _ Hnodup Hperm).
  vm_compute. reflexivity.
Defined.

Lemma compatibility_issues_bounded_witness :
  well_formed build_socket_and_psu
  ∧ ∃ issues, eval (compatibility_issues build_socket_and_psu) store = inr issues
              ∧ (length issues ≤ 7)%nat ∧ NoDup issues.
Proof.
  assert (Hwf : well_formed build_socket_and_psu) by solve_well_formed.
  split; [exact Hwf|].
  exact (compatibility_issues_bounded store build_socket_and_psu Hwf).
Defined.

(** 400 W of tdp behind a 600 W psu: accepted, and 520 <= 600. *)
Lemma accepted_psu_covers_estimate_witness :
  well_formed build_psu_600
  ∧ eval (compatibility_issues build_psu_600) store = inr []
  ∧ (role_lookup store build_psu_600 "psu" ≫= psu_wattage) = Some 600
  ∧ ∃ est, eval (estimate_wattage build_psu_600) store = inr est ∧ est ≤ 600.
Proof.
  assert (Hwf : well_formed build_psu_600) by solve_well_formed.
  assert (Hok : eval (compatibility_issues build_psu_600) store = inr [])
    by (vm_compute; reflexivity).
  assert (Hw : (role_lookup store build_psu_600 "psu" ≫= psu_wattage) = Some 600)
    by (vm_compute; reflexivity).
  split; [exact Hwf|]. split; [exact Hok|]. split; [exact Hw|].
  destruct (accepted_psu_covers_estimate store build_psu_600 600 Hwf Hok Hw)
    as (est & Hest & Hle & _); [reflexivity|].
  exists est. split; [exact Hest | exact Hle].
Defined.

Lemma update_build_failures_witness :
  update_build id_malformed None None None gallery = (inl no_fields_error, gallery)
  ∧ update_build id_malformed (Some true) None None gallery
    = (inl invalid_id, gallery)
  ∧ update_build id_missing (Some true) None None gallery
    = (inl build_not_found, gallery).
Proof.
  destruct (update_build_failures id_malformed (Some true) None None gallery)
    as (Hnone & Hsome).
  destruct (update_build_failures id_missing (Some true) None None gallery)
    as (_ & Hsome').
  split; [exact Hnone|]. split.
  - apply Hsome; [discriminate | vm_compute; reflexivity].
  - apply (proj2 (Hsome' ltac:(discriminate)) id_missing);
      vm_compute; reflexivity.
Defined.

(** Build B gets a new title and keeps its flag, likes and price. *)
Lemma update_build_sets_fields_witness :
  ∃ doc',
    update_build id_build_b None (Some "B2") None gallery
    = (inr true,
       mkDb catalogue
         ([(id_build_a, build_a)] ++ (id_build_b, doc')
          :: [(id_build_c, build_c); (id_build_d, build_d)]) [])
    ∧ title doc' = "B2" ∧ is_anchor doc' = true ∧ likes doc' = 9.
Proof.
  destruct (update_build_sets_fields id_build_b None (Some "B2") None gallery
              id_build_b [(id_build_a, build_a)] build_b
              [(id_build_c, build_c); (id_build_d, build_d)])
    as (doc' & Hrun & Hanchor & Htitle & _ & _ & _ & _ & Hlikes).
  - discriminate.
  - vm_compute. reflexivity.
  - reflexivity.
  - vm_compute. intros Hin. apply list_elem_of_singleton in Hin. discriminate.
  - exists doc'. split; [exact Hrun|].
    split; [exact Htitle|]. split; [exact Hanchor | exact Hlikes].
Defined.

(** Build D refers to a gpu the catalogue lacks: it is read with its
    cpu expanded and the gpu left out. *)
Lemma get_build_expands_witness :
  ∃ view,
    eval (get_build no_comments id_build_d) gallery = inr view
    ∧ view_doc view = build_d
    ∧ expanded_ref <$> components_expanded view = [ref id_cpu "cpu"].
Proof.
  destruct (get_build_expands no_comments id_build_d gallery)
    as (_ & _ & Hview & _).
  destruct (Hview id_build_d build_d) as (view & Heval & _ & Hdoc & _ & _ & Hrefs).
  - vm_compute. reflexivity.
  - vm_compute. reflexivity.
  - solve_well_formed.
  - exists view. split; [exact Heval|]. split; [exact Hdoc|].
    rewrite Hrefs. vm_compute. reflexivity.
Defined.

Lemma created_build_reads_back_witness :
  ∃ view,
    eval (get_build no_comments id_fresh)
         (exec (create_build id_fresh build_priced) store) = inr view
    ∧ view_id view = id_fresh
    ∧ total_price (view_doc view) = Some 479.75%float
    ∧ expanded_ref <$> components_expanded view = components build_priced.
Proof.
  assert (Hok : eval (create_build id_fresh build_priced) store
                = inr (mkCreated id_fresh 479.75%float))
    by (vm_compute; reflexivity).
  destruct (created_build_reads_back no_comments store id_fresh build_priced
              _ ltac:(vm_compute; reflexivity) ltac:(apply not_elem_of_nil) Hok)
    as (view & Heval & Hid & Hdoc & Hrefs & _).
  exists view. split; [exact Heval|]. split; [exact Hid|].
  split; [by rewrite Hdoc | exact Hrefs].
Defined.

Lemma stored_builds_stay_well_formed_witness :
  stored_well_formed gallery
  ∧ stored_well_formed (exec (create_build id_fresh build_priced) gallery)
  ∧ ∃ view, eval (get_build no_comments id_build_d) gallery = inr view.
Proof.
  assert (Hinv : stored_well_formed gallery).
  { unfold stored_well_formed.
    repeat first [ apply Forall_nil_2 | apply Forall_cons_2; [solve_well_formed|] ]. }
  destruct (stored_builds_stay_well_formed gallery Hinv) as (Hcreate & _ & Hget).
  split; [exact Hinv|]. split; [apply Hcreate|].
  apply (Hget _ no_comments id_build_d id_build_d build_d);
    vm_compute; reflexivity.
Defined.

(** A first like of build A: six likes. *)
Lemma like_build_increments_witness :
  ∃ doc',
    like_build id_build_a "u7" site
    = (inr "ok",
       mkSite (mkDb catalogue
                 ([] ++ (id_build_a, doc')
                  :: [(id_build_b, build_b); (id_build_c, build_c);
                      (id_build_d, build_d)]) [])
              [mkLike id_build_a "u7"])
    ∧ likes doc' = 6.
Proof.
  destruct (like_build_increments id_build_a "u7" site id_build_a [] build_a
              [(id_build_b, build_b); (id_build_c, build_c); (id_build_d, build_d)])
    as (doc' & Hrun & Hlikes & _).
  - reflexivity.
  - vm_compute. reflexivity.
  - reflexivity.
  - apply not_elem_of_nil.
  - exists doc'. split; [exact Hrun | exact Hlikes].
Defined.

(** A like of [not-a-key] fails and is recorded; a like of a key with
    no build succeeds and is recorded. *)
Lemma like_build_records_unmatched_witness :
  like_build id_malformed "u7" site
  = (inl invalid_id, mkSite gallery [mkLike id_malformed "u7"])
  ∧ like_build id_missing "u7" site
    = (inr "ok", mkSite gallery [mkLike id_missing "u7"]).
Proof.
  destruct (like_build_records_unmatched id_malformed "u7" site eq_refl)
    as (Hbad & _).
  destruct (like_build_records_unmatched id_missing "u7" site eq_refl)
    as (_ & Hnone).
  split.
  - apply Hbad. vm_compute. reflexivity.
  - apply (Hnone id_missing); vm_compute; reflexivity.
Defined.

(** The key of build A in lower and in upper case: one user, two
    likes counted. *)
Lemma like_build_spellings_witness :
  id_build_a ≠ id_build_a_upper
  ∧ ObjectId_of_str id_build_a = ObjectId_of_str id_build_a_upper
  ∧ ∃ doc2,
      lookup_build id_build_a
        (db_build (site_db (like_build id_build_a_upper "u7"
                              (like_build id_build_a "u7" site).2).2))
      = Some doc2
      ∧ likes doc2 = 7.
Proof.
  assert (Hne : id_build_a ≠ id_build_a_upper) by discriminate.
  split; [exact Hne|]. split; [vm_compute; reflexivity|].
  destruct (like_build_spellings id_build_a id_build_a_upper "u7" site
              id_build_a [] build_a
              [(id_build_b, build_b); (id_build_c, build_c); (id_build_d, build_d)]
              Hne)
    as (_ & _ & doc2 & Hlookup & Hlikes);
    try (vm_compute; reflexivity); [apply not_elem_of_nil|].
  exists doc2. split; [exact Hlookup | exact Hlikes].
Defined.

(** The flagged builds of the gallery, under a merging sort: B and D. *)
Lemma list_anchor_builds_shows_flagged_witness :
  ∃ shown,
    list_anchor_builds merge_sort_by_likes gallery
    = (inr (with_ids shown), gallery)
    ∧ shown ≡ₚ [(id_build_b, build_b); (id_build_d, build_d)].
Proof.
  destruct (list_anchor_builds_shows_flagged merge_sort_by_likes
              merge_sort_by_likes_Permutation merge_sort_by_likes_StronglySorted
              gallery) as (shown & Hrun & Hperm & _).
  exists shown. split; [exact Hrun | exact Hperm].
Defined.

Lemma anchor_listing_follows_flag_witness :
  eval (create_build id_fresh build_showcase) gallery
  = inr (mkCreated id_fresh 299.5%float)
  ∧ ∃ items,
      eval (list_anchor_builds merge_sort_by_likes)
           (exec (create_build id_fresh build_showcase) gallery) = inr items
      ∧ (id_fresh, stored_document build_showcase 299.5%float) ∈ items.
Proof.
  assert (Hok : eval (create_build id_fresh build_showcase) gallery
                = inr (mkCreated id_fresh 299.5%float))
    by (vm_compute; reflexivity).
  split; [exact Hok|].
  destruct (anchor_listing_follows_flag merge_sort_by_likes
              merge_sort_by_likes_Permutation merge_sort_by_likes_StronglySorted
              gallery) as (Hcreated & _).
  exact (Hcreated id_fresh build_showcase _ Hok eq_refl).
Defined.

(** The three most liked of the four builds, whatever the limit. *)
Lemma list_builds_shows_extremes_witness :
  ∃ shown rest,
    list_builds merge_sort_by_likes true 1 gallery
    = (inr (with_ids shown), gallery)
    ∧ shown ++ rest ≡ₚ db_build gallery
    ∧ length shown = 3%nat
    ∧ ∀ x y, x ∈ shown → y ∈ rest → likes y.2 ≤ likes x.2.
Proof.
  destruct (list_builds_shows_extremes merge_sort_by_likes
              merge_sort_by_likes_Permutation merge_sort_by_likes_StronglySorted
              gallery true 1 eq_refl)
    as (shown & rest & Hrun & Hperm & Hlen & Horder).
  exists shown, rest. split; [exact Hrun|]. split; [exact Hperm|].
  split; [exact Hlen | exact Horder].
Defined.
